(** * Statistical core of the Instacart A/B dashboard (app/streamlit_app.py)

    A shallow embedding of the computations the dashboard script performs:
    the SRM chi-square check, the two-proportion z-test, the Welch test from
    summary statistics, the bootstrap estimators and the CUPED adjustment.

    Numbers.  Python [int] is [Z].  In the SRM check, the significance tests
    and the bootstrap, a Python/NumPy float is modelled by [float]: an exact
    rational ([Qc], canonical fractions, so equality is Leibniz equality)
    extended with the IEEE special values [FInf] and [FNaN].  The special
    values are what make NumPy's "divide by zero gives inf/nan" and Python's
    "comparison with nan is False" visible.  Rounding, overflow to infinity
    and the sign of zero are not modelled there: every finite operation
    returns the exact rational result.

    The CUPED block is the one place where the properties of interest are
    about bit-exact results; it is modelled in [Binary64] over the kernel's
    IEEE binary64 floats ([PrimFloat.float]), with the rounding of the
    hardware.

    Exceptions.  Python code that can raise returns [outcome]; the
    [try/except Exception] around each dashboard tab is modelled by the tab
    functions, which turn a raised exception into UI events. *)

From Stdlib Require Import ZArith QArith Qcanon Qround List Bool Lia Lqa Floats.
From stdpp Require Import base list numbers sorting.

Local Open Scope Z_scope.

(** ** Floats *)

Inductive float : Type :=
| FNum (q : Qc)
| FInf (neg : bool)
| FNaN.

Definition f0 : float := FNum 0%Qc.
Definition f1 : float := FNum 1%Qc.

Definition f_of_Z (n : Z) : float := FNum (Qc_of_Z n).
Definition f_of_nat (n : nat) : float := f_of_Z (Z.of_nat n).

(** Sign of a rational as a comparison with zero. *)
Definition Qc_sgn (q : Qc) : comparison := (q ?= 0)%Qc.

Definition is_nan (x : float) : bool :=
  match x with FNaN => true | _ => false end.

Definition is_finite (x : float) : bool :=
  match x with FNum _ => true | _ => false end.

Definition is_zero (x : float) : bool :=
  match x with
  | FNum q => match Qc_sgn q with Eq => true | _ => false end
  | _ => false
  end.

Definition fneg (x : float) : float :=
  match x with
  | FNum q => FNum (- q)%Qc
  | FInf s => FInf (negb s)
  | FNaN => FNaN
  end.

Definition fadd (x y : float) : float :=
  match x, y with
  | FNaN, _ | _, FNaN => FNaN
  | FInf s, FInf s' => if Bool.eqb s s' then FInf s else FNaN
  | FInf s, FNum _ | FNum _, FInf s => FInf s
  | FNum p, FNum q => FNum (p + q)%Qc
  end.

Definition fsub (x y : float) : float := fadd x (fneg y).

(** [inf * 0] is nan; otherwise the sign of an infinite product is the
    product of the signs. *)
Definition inf_times (s : bool) (q : Qc) : float :=
  match Qc_sgn q with
  | Eq => FNaN
  | Gt => FInf s
  | Lt => FInf (negb s)
  end.

Definition fmul (x y : float) : float :=
  match x, y with
  | FNaN, _ | _, FNaN => FNaN
  | FInf s, FInf s' => FInf (xorb s s')
  | FInf s, FNum q | FNum q, FInf s => inf_times s q
  | FNum p, FNum q => FNum (p * q)%Qc
  end.

(** NumPy division: no exception; [x/0] is nan for [x = 0] and a signed
    infinity otherwise, a finite number over an infinity is zero. *)
Definition fdiv (x y : float) : float :=
  match x, y with
  | FNaN, _ | _, FNaN => FNaN
  | FInf _, FInf _ => FNaN
  | FInf s, FNum q =>
      match Qc_sgn q with Lt => FInf (negb s) | _ => FInf s end
  | FNum _, FInf _ => f0
  | FNum p, FNum q =>
      match Qc_sgn q with
      | Eq => match Qc_sgn p with
              | Eq => FNaN
              | Gt => FInf false
              | Lt => FInf true
              end
      | _ => FNum (p / q)%Qc
      end
  end.

(** Comparisons: every comparison with nan is [false]. *)
Definition fltb (x y : float) : bool :=
  match x, y with
  | FNaN, _ | _, FNaN => false
  | FInf s, FInf s' => s && negb s'
  | FInf s, FNum _ => s
  | FNum _, FInf s => negb s
  | FNum p, FNum q => bool_decide (p < q)%Qc
  end.

Definition fgtb (x y : float) : bool := fltb y x.

Definition fleb (x y : float) : bool :=
  match x, y with
  | FNaN, _ | _, FNaN => false
  | FInf s, FInf s' => s || negb s'
  | FInf s, FNum _ => s
  | FNum _, FInf s => negb s
  | FNum p, FNum q => bool_decide (p <= q)%Qc
  end.

Definition fgeb (x y : float) : bool := fleb y x.

Definition fabs (x : float) : float :=
  match x with
  | FNum q => match Qc_sgn q with Lt => FNum (- q)%Qc | _ => FNum q end
  | FInf _ => FInf false
  | FNaN => FNaN
  end.

Declare Scope num_scope.
Delimit Scope num_scope with num.
Bind Scope num_scope with float.
Infix "+" := fadd : num_scope.
Infix "-" := fsub : num_scope.
Infix "*" := fmul : num_scope.
Infix "/" := fdiv : num_scope.

Local Open Scope num_scope.

Definition half : float := FNum (Q2Qc (1 # 2)).
Definition fsq (x : float) : float := x * x.

(** [ndarray.sum()] and [ndarray.mean()] over a one-dimensional array.  The
    mean of an empty array is [0.0 / 0], that is nan (NumPy warns, it does
    not raise). *)
Definition np_sum (l : list float) : float := foldl fadd f0 l.
Definition np_mean (l : list float) : float := np_sum l / f_of_nat (length l).

(** ** Exceptions *)

(** [ZeroDivisionError] is the only exception the modelled arithmetic can
    raise.  The other three are the error names of the specification's
    taxonomy; no path of the script constructs them. *)
Inductive exn : Type :=
| ZeroDivisionError
| InputError
| InsufficientSample
| InvalidAllocation.

Inductive outcome (A : Type) : Type :=
| Ok (a : A)
| Raised (e : exn).
Arguments Ok {A} a.
Arguments Raised {A} e.

Definition obind {A B} (m : outcome A) (k : A -> outcome B) : outcome B :=
  match m with
  | Ok a => k a
  | Raised e => Raised e
  end.

Notation "'let*' x ':=' m 'in' k" := (obind m (fun x => k))
  (at level 10, x name, m at level 100, k at level 200).

(** Python [int / int]: true division, raising on a zero divisor. *)
Definition py_int_truediv (a b : Z) : outcome float :=
  if (b =? 0)%Z then Raised ZeroDivisionError
  else Ok (f_of_Z a / f_of_Z b).

(** Python [float / int] and [float / float] on built-in floats: the zero
    check comes before anything else, also for a nan or infinite dividend. *)
Definition py_float_div (x y : float) : outcome float :=
  if is_zero y then Raised ZeroDivisionError else Ok (x / y).

Definition py_float_div_int (x : float) (n : Z) : outcome float :=
  py_float_div x (f_of_Z n).

(** ** What the dashboard shows *)

Inductive interpretation : Type :=
| NoSRM          (* "No SRM (p > 0.05)" *)
| PotentialSRM.  (* "Potential SRM (p <= 0.05)" *)

Record srm_report : Type := {
  srm_users_A : Z;
  srm_users_B : Z;
  srm_chi2 : float;
  srm_p : float;
  srm_interpretation : interpretation
}.

Record conv_report : Type := {
  A_rate : float;
  B_rate : float;
  B_minus_A : float;
  conv_z : float;
  conv_p : float
}.

Record arpu_report : Type := {
  mean_A : float;
  mean_B : float;
  diff_B_minus_A : float;
  arpu_t : float;
  arpu_df : float;
  arpu_p : float
}.

(** One row of [variant_metrics], after the [int(...)] and [float(...)]
    conversions of the script. *)
Record variant_row : Type := {
  users : Z;
  converters : Z;
  arpu : float;
  arpu_var : float
}.

(** Events of a tab: [st.write] of a report, or the [except Exception]
    handler's [st.error] followed by [st.exception e]. *)
Inductive ui_event : Type :=
| WroteSRM (r : srm_report)
| WroteConv (r : conv_report)
| WroteArpu (r : arpu_report)
| StError (e : exn).

(** ** The script's computations

    The SciPy distribution functions, the square root and NumPy's random
    generator are library code; the script is modelled over them. *)

Section Script.

(** [np.sqrt] on a non-negative finite number. *)
Variable sqrtQc : Qc -> Qc.
(** [stats.norm.cdf], [stats.chi2.cdf(., df=1)] and [stats.t.cdf(., df)]. *)
Variable norm_cdf : float -> float.
Variable chi2_cdf : float -> float.
Variable t_cdf : float -> float -> float.

(** [np.sqrt]: nan (with a warning) below zero, no exception. *)
Definition np_sqrt (x : float) : float :=
  match x with
  | FNum q => match Qc_sgn q with
              | Lt => FNaN
              | Eq => f0
              | Gt => FNum (sqrtQc q)
              end
  | FInf false => FInf false
  | FInf true => FNaN
  | FNaN => FNaN
  end.

(** *** Overview tab: the SRM check (lines 91-108) *)

Definition srm_expected (users_a users_b : Z) : list float :=
  let total := (users_a + users_b)%Z in
  map (fun w => w * f_of_Z total) [half; half].

Definition srm_observed (users_a users_b : Z) : list float :=
  [f_of_Z users_a; f_of_Z users_b].

Definition srm_statistic (users_a users_b : Z) : float :=
  let expected := srm_expected users_a users_b in
  let observed := srm_observed users_a users_b in
  np_sum (zip_with (fun o e => fsq (o - e) / e) observed expected).

Definition p05 : float := FNum (Q2Qc (5 # 100)).

Definition srm_check (users_a users_b : Z) : outcome srm_report :=
  let chi2 := srm_statistic users_a users_b in
  let pval := f1 - chi2_cdf chi2 in
  Ok {| srm_users_A := users_a;
        srm_users_B := users_b;
        srm_chi2 := chi2;
        srm_p := pval;
        srm_interpretation := if fgtb pval p05 then NoSRM else PotentialSRM |}.

(** *** Significance tab (lines 128-172, repeated at 361-405) *)

Definition f2 : float := f_of_Z 2.

Definition conversion_test (a b : variant_row) : outcome conv_report :=
  let a_n := users a in
  let b_n := users b in
  let a_x := converters a in
  let b_x := converters b in
  let* p_a := py_int_truediv a_x a_n in
  let* p_b := py_int_truediv b_x b_n in
  let* va := py_float_div_int (p_a * (f1 - p_a)) a_n in
  let* vb := py_float_div_int (p_b * (f1 - p_b)) b_n in
  let se := np_sqrt (va + vb) in
  let z_conv := if fgtb se f0 then (p_b - p_a) / se else f0 in
  let p_conv := f2 * (f1 - norm_cdf (fabs z_conv)) in
  Ok {| A_rate := p_a;
        B_rate := p_b;
        B_minus_A := p_b - p_a;
        conv_z := z_conv;
        conv_p := p_conv |}.

Definition welch_test (a b : variant_row) : outcome arpu_report :=
  let a_n := users a in
  let b_n := users b in
  let m_a := arpu a in
  let m_b := arpu b in
  let v_a := arpu_var a in
  let v_b := arpu_var b in
  let* qa := py_float_div_int v_a a_n in
  let* qb := py_float_div_int v_b b_n in
  let se_welch := np_sqrt (qa + qb) in
  let t_arpu := if fgtb se_welch f0 then (m_b - m_a) / se_welch else f0 in
  let* qa' := py_float_div_int v_a a_n in
  let* qb' := py_float_div_int v_b b_n in
  let num := fsq (qa' + qb') in
  let* da := py_float_div_int (fsq v_a) ((a_n * a_n) * (a_n - 1)) in
  let* db := py_float_div_int (fsq v_b) ((b_n * b_n) * (b_n - 1)) in
  let den := da + db in
  let* df := if fgtb den f0 then py_float_div num den
             else Ok (f_of_Z (a_n + b_n - 2)) in
  let p_arpu := f2 * (f1 - t_cdf (fabs t_arpu) df) in
  Ok {| mean_A := m_a;
        mean_B := m_b;
        diff_B_minus_A := m_b - m_a;
        arpu_t := t_arpu;
        arpu_df := df;
        arpu_p := p_arpu |}.

(** The [try] body runs the two tests in order; the handler reports the
    first exception after whatever was already written. *)
Definition tab_tests (a b : variant_row) : list ui_event :=
  match conversion_test a b with
  | Raised e => [StError e]
  | Ok c =>
      WroteConv c ::
      match welch_test a b with
      | Raised e => [StError e]
      | Ok w => [WroteArpu w]
      end
  end.

Definition tab_overview_srm (users_a users_b : Z) : list ui_event :=
  match srm_check users_a users_b with
  | Raised e => [StError e]
  | Ok r => [WroteSRM r]
  end.

End Script.

(** *** Confidence-interval tab: the analytic fallback (lines 292-344)

    Taken when the per-user path raised: intervals from the summary row of
    each arm, at the 97.5% points of the normal and the Student
    distributions. *)

Record ci_row : Type := {
  ci_diff_B_minus_A : float;
  ci_low : float;
  ci_high : float
}.

Section AnalyticFallback.

Variable sqrtQc : Qc -> Qc.
(** [stats.norm.ppf(0.975)] and [stats.t.ppf(0.975, df)]. *)
Variable norm_ppf_975 : float.
Variable t_ppf_975 : float -> float.

(** The conversion row and the ARPU row of the table, built only after both
    intervals were computed. *)
Definition analytic_cis (a b : variant_row) : outcome (ci_row * ci_row) :=
  let a_n := users a in
  let b_n := users b in
  let a_x := converters a in
  let b_x := converters b in
  let* p_a := py_int_truediv a_x a_n in
  let* p_b := py_int_truediv b_x b_n in
  let* va := py_float_div_int (p_a * (f1 - p_a)) a_n in
  let* vb := py_float_div_int (p_b * (f1 - p_b)) b_n in
  let se := np_sqrt sqrtQc (va + vb) in
  let z := norm_ppf_975 in
  let conv_low := (p_b - p_a) - z * se in
  let conv_high := (p_b - p_a) + z * se in
  let m_a := arpu a in
  let m_b := arpu b in
  let v_a := arpu_var a in
  let v_b := arpu_var b in
  let* qa := py_float_div_int v_a a_n in
  let* qb := py_float_div_int v_b b_n in
  let se_ar := np_sqrt sqrtQc (qa + qb) in
  let diff_ar := m_b - m_a in
  let* qa' := py_float_div_int v_a a_n in
  let* qb' := py_float_div_int v_b b_n in
  let df_num := fsq (qa' + qb') in
  let* da := py_float_div_int (fsq v_a) ((a_n * a_n) * (a_n - 1)) in
  let* db := py_float_div_int (fsq v_b) ((b_n * b_n) * (b_n - 1)) in
  let df_den := da + db in
  let* df := if fgtb df_den f0 then py_float_div df_num df_den
             else Ok (f_of_Z (a_n + b_n - 2)) in
  let tcrit := t_ppf_975 df in
  let ar_low := diff_ar - tcrit * se_ar in
  let ar_high := diff_ar + tcrit * se_ar in
  Ok ({| ci_diff_B_minus_A := p_b - p_a;
         ci_low := conv_low;
         ci_high := conv_high |},
      {| ci_diff_B_minus_A := diff_ar;
         ci_low := ar_low;
         ci_high := ar_high |}).

End AnalyticFallback.

(** *** NumPy sorting and percentiles *)

(** The order [np.sort] uses: the usual order with nan placed last. *)
Definition sort_leb (x y : float) : bool :=
  match x, y with
  | _, FNaN => true
  | FNaN, _ => false
  | _, _ => fleb x y
  end.

Definition sort_le : relation float := fun x y => sort_leb x y = true.

Global Instance sort_le_dec : RelDecision sort_le.
Proof. intros x y. unfold sort_le. apply _. Defined.

Definition np_sort (arr : list float) : list float := merge_sort sort_le arr.

(** [_lerp] of [numpy.lib]: [a + (b - a) * t], recomputed from the upper
    end as [b - (b - a) * (1 - t)] where [t >= 0.5]. *)
Definition lerp (a b t : float) : float :=
  let diff_b_a := b - a in
  if fgeb t half then b - diff_b_a * (f1 - t) else a + diff_b_a * t.

(** The position of the [q]-th percentile among [n] sorted values, counted
    from 0: [(n - 1) * q / 100]. *)
Definition virtual_index (n : Z) (q : Qc) : Qc :=
  (Qc_of_Z (n - 1) * (q / Qc_of_Z 100))%Qc.

(** [np.percentile(arr, q)] with the default ("linear") method, for
    [0 <= q <= 100]: the result interpolates between the sorted values
    around the virtual index.  An array holding a nan gives nan.  The script
    never takes a percentile of an empty array (the slider gives at least
    500 resamples); the model returns nan there. *)
Definition np_percentile (arr : list float) (q : Qc) : float :=
  let n := Z.of_nat (length arr) in
  if existsb is_nan arr then FNaN
  else if (n =? 0)%Z then FNaN
  else
    let sorted := np_sort arr in
    let virtual := virtual_index n q in
    let previous := Qfloor virtual in
    let next := Z.min (previous + 1) (n - 1) in
    let gamma := (virtual - Qc_of_Z previous)%Qc in
    lerp (nth (Z.to_nat previous) sorted FNaN)
         (nth (Z.to_nat next) sorted FNaN)
         (FNum gamma).

Definition q2_5 : Qc := Q2Qc (25 # 10).
Definition q97_5 : Qc := Q2Qc (975 # 10).

(** *** Confidence-interval tab: the bootstrap (lines 200-244) *)

(** Lines 225-230: one column of [user_outcomes] for one variant, after
    [fillna(0)] and [to_numpy()]; a SQL NULL is [None]. *)
Definition outcome_column (cells : list (option Qc)) : list float :=
  map (fun c => match c with Some q => FNum q | None => f0 end) cells.

(** The arguments of one call: [(a_vals, b_vals, B, seed)]. *)
Abbreviation call_args := (list float * list float * nat * Z)%type.

Section Bootstrap.

(** [np.random.default_rng(seed)] and the index draw behind
    [Generator.choice(a, size, replace=True)]: [rng_indices g n k] is [k]
    indices into a population of [n] and the generator's next state. *)
Variable Generator : Type.
Variable default_rng : Z -> Generator.
Variable rng_indices : Generator -> nat -> nat -> list nat * Generator.

Definition rng_choice (g : Generator) (a : list float) (size : nat)
  : list float * Generator :=
  let (idx, g') := rng_indices g (length a) size in
  (map (fun i => nth i a FNaN) idx, g').

(** The local state of one call: its own generator, the two samples, the
    iterations still to run and the part of [diffs] already filled. *)
Record call : Type := {
  c_rng : Generator;
  c_a : list float;
  c_b : list float;
  c_todo : nat;
  c_diffs : list float
}.

Definition call_init (a_vals b_vals : list float) (B : nat) (seed : Z) : call :=
  {| c_rng := default_rng seed;
     c_a := a_vals;
     c_b := b_vals;
     c_todo := B;
     c_diffs := [] |}.

(** One iteration of [for i in range(B)]. *)
Definition call_step (c : call) : call :=
  match c_todo c with
  | O => c
  | S k =>
      let (ai, g1) := rng_choice (c_rng c) (c_a c) (length (c_a c)) in
      let (bi, g2) := rng_choice g1 (c_b c) (length (c_b c)) in
      {| c_rng := g2;
         c_a := c_a c;
         c_b := c_b c;
         c_todo := k;
         c_diffs := c_diffs c ++ [np_mean bi - np_mean ai] |}
  end.

Definition bootstrap_samples_mean_diff
    (a_vals b_vals : list float) (B : nat) (seed : Z) : list float :=
  c_diffs (Nat.iter B call_step (call_init a_vals b_vals B seed)).

(** What the two estimators return from their buffer. *)
Definition ci_of_diffs (diffs : list float) : float * (float * float) :=
  let lo := np_percentile diffs q2_5 in
  let hi := np_percentile diffs q97_5 in
  (np_mean diffs, (lo, hi)).

Definition bootstrap_ci_mean_diff
    (a_vals b_vals : list float) (B : nat) (seed : Z) : float * (float * float) :=
  ci_of_diffs (bootstrap_samples_mean_diff a_vals b_vals B seed).

(** [bootstrap_ci_prop_diff] has the same body, on 0/1 arrays. *)
Definition bootstrap_ci_prop_diff
    (a01 b01 : list float) (B : nat) (seed : Z) : float * (float * float) :=
  ci_of_diffs (bootstrap_samples_mean_diff a01 b01 B seed).

(** Several calls in flight (one per session thread): a schedule names, step
    by step, the call that runs its next loop iteration. *)
Definition pool_step (pool : list call) (i : nat) : list call :=
  alter call_step i pool.

Definition run_schedule (schedule : list nat) (pool : list call) : list call :=
  foldl pool_step pool schedule.

Definition start_call (x : call_args) : call :=
  let '(a, b, B, seed) := x in call_init a b B seed.

End Bootstrap.

Arguments c_rng {Generator} c.
Arguments c_a {Generator} c.
Arguments c_b {Generator} c.
Arguments c_todo {Generator} c.
Arguments c_diffs {Generator} c.
Arguments rng_choice {Generator} rng_indices g a size.
Arguments call_init {Generator} default_rng a_vals b_vals B seed.
Arguments call_step {Generator} rng_indices c.
Arguments bootstrap_samples_mean_diff {Generator} default_rng rng_indices a_vals b_vals B seed.
Arguments bootstrap_ci_mean_diff {Generator} default_rng rng_indices a_vals b_vals B seed.
Arguments bootstrap_ci_prop_diff {Generator} default_rng rng_indices a01 b01 B seed.
Arguments pool_step {Generator} rng_indices pool i.
Arguments run_schedule {Generator} rng_indices schedule pool.
Arguments start_call {Generator} default_rng x.

(** *** CUPED tab (lines 423-429), over IEEE binary64

    The claims about this block speak of bit-exact results, so it is
    modelled over the kernel's binary64 floats, where every operation
    rounds as the hardware does.  [None] is a SQL NULL. *)

Inductive variant_label : Type := VarA | VarB.

Module Binary64.

Local Open Scope float_scope.

(** One row of [user_outcomes_with_pre]. *)
Record uop_row : Type := {
  uop_variant : variant_label;
  uop_Y : option PrimFloat.float;
  uop_X : option PrimFloat.float
}.

(** The float nearest to an integer (a count converted by NumPy). *)
Definition of_int (n : Z) : PrimFloat.float :=
  SF2Prim (binary_normalize prec emax n 0 false).

(** [Series.fillna(0.0)] followed by [to_numpy(float)] on one cell: a
    missing value (NULL, which pandas holds as nan) becomes [0.0]. *)
Definition fillna0 (c : option PrimFloat.float) : PrimFloat.float :=
  match c with
  | Some x => if PrimFloat.is_nan x then 0 else x
  | None => 0
  end.

(** [Series.to_numpy(float)] alone: a missing value is nan. *)
Definition to_numpy (c : option PrimFloat.float) : PrimFloat.float :=
  match c with
  | Some x => x
  | None => nan
  end.

(** [ndarray.sum()], accumulated from left to right.  (NumPy adds long
    arrays in a pairwise order, which may round differently; nothing below
    depends on the order.) *)
Definition np_sum (l : list PrimFloat.float) : PrimFloat.float :=
  foldl PrimFloat.add 0 l.

Definition np_mean (l : list PrimFloat.float) : PrimFloat.float :=
  np_sum l / of_int (Z.of_nat (length l)).

(** [np.var(x, ddof=1)]: the divisor is [max(n - 1, 0)]; dividing by zero
    gives nan or inf, not an exception. *)
Definition np_var_ddof1 (x : list PrimFloat.float) : PrimFloat.float :=
  let arrmean := np_mean x in
  let n := Z.of_nat (length x) in
  np_sum (map (fun v => (v - arrmean) * (v - arrmean)) x)
  / of_int (Z.max (n - 1) 0).

(** [np.cov(y, x, ddof=1)[0, 1]]: the dot product of the centred rows times
    [1 / fact], with [fact = n - 1], or [0.0] when that is not positive. *)
Definition np_cov_ddof1 (y x : list PrimFloat.float) : PrimFloat.float :=
  let avg_y := np_mean y in
  let avg_x := np_mean x in
  let fact := Z.max (Z.of_nat (length x) - 1) 0 in
  let dot := np_sum (zip_with PrimFloat.mul
                       (map (fun v => v - avg_y) y)
                       (map (fun w => w - avg_x) x)) in
  dot * (1 / of_int fact).

Record cuped_frame : Type := {
  cuped_X : list PrimFloat.float;
  cuped_Y : list PrimFloat.float;
  cuped_theta : PrimFloat.float;
  cuped_X_mean : PrimFloat.float;
  cuped_Y_cuped : list PrimFloat.float
}.

Definition tab_cuped_adjust (uop : list uop_row) : cuped_frame :=
  let X := map (fun r => fillna0 (uop_X r)) uop in
  let Y := map (fun r => to_numpy (uop_Y r)) uop in
  let varX := np_var_ddof1 X in
  let covYX := np_cov_ddof1 Y X in
  let theta := if 0 <? varX then covYX / varX else 0 in
  let x_mean := np_mean X in
  {| cuped_X := X;
     cuped_Y := Y;
     cuped_theta := theta;
     cuped_X_mean := x_mean;
     cuped_Y_cuped := zip_with (fun y x => y - theta * (x - x_mean)) Y X |}.

(** The row a missing covariate is treated as. *)
Definition zero_missing_X (r : uop_row) : uop_row :=
  {| uop_variant := uop_variant r;
     uop_Y := uop_Y r;
     uop_X := Some (fillna0 (uop_X r)) |}.

(** Three units with the same covariate 0.1 (the nearest binary64 value),
    and outcomes 0, 0 and 1. *)
Definition tenth : PrimFloat.float := 0x1.999999999999ap-4.

Definition uop_tenths : list uop_row :=
  [ {| uop_variant := VarA; uop_Y := Some 0; uop_X := Some tenth |};
    {| uop_variant := VarA; uop_Y := Some 0; uop_X := Some tenth |};
    {| uop_variant := VarB; uop_Y := Some 1; uop_X := Some tenth |} ].

(** Four units with the covariate 3 (an item count), one outcome missing. *)
Definition uop_threes : list uop_row :=
  [ {| uop_variant := VarA; uop_Y := Some 2; uop_X := Some 3 |};
    {| uop_variant := VarA; uop_Y := None; uop_X := Some 3 |};
    {| uop_variant := VarB; uop_Y := Some 0.5; uop_X := Some 3 |};
    {| uop_variant := VarB; uop_Y := Some 7; uop_X := Some 3 |} ].

End Binary64.

(** ** Concrete stand-ins for the library functions

    Rational functions with the qualitative shape of the library functions
    they stand for.  They instantiate the section variables where a
    statement has to be evaluated on concrete data; no theorem depends on
    their particular values. *)

(** A square root that is exact on squares of rationals and rounds up by
    one unit of the denominator otherwise: [sqrt (n/d) = sqrt (n*d) / d]. *)
Definition sqrtQc_upper (q : Qc) : Qc :=
  let n := Qnum q in
  let d := Zpos (Qden q) in
  let r := Z.sqrt (n * d) in
  if (r * r =? n * d)%Z then Q2Qc (r # Qden q)
  else Q2Qc ((r + 1) # Qden q).

(** [x / (1 + x)] on the non-negative half line: 0 at 0, increasing to 1. *)
Definition cdf_halfline (x : float) : float :=
  match x with
  | FNum q => if bool_decide (q <= 0)%Qc then f0 else FNum (q / (1 + q))%Qc
  | FInf false => f1
  | FInf true => f0
  | FNaN => FNaN
  end.

(** [(1 + x / (1 + |x|)) / 2]: 1/2 at 0, increasing from 0 to 1. *)
Definition cdf_sigmoid (x : float) : float :=
  match x with
  | FNum q =>
      let a := if bool_decide (q < 0)%Qc then (- q)%Qc else q in
      FNum ((1 + q / (1 + a)) / (1 + 1))%Qc
  | FInf false => f1
  | FInf true => f0
  | FNaN => FNaN
  end.

Definition t_cdf_sigmoid (x df : float) : float := cdf_sigmoid x.

(** 1.96 for [stats.norm.ppf(0.975)], and 2 for every Student quantile. *)
Definition norm_ppf_975_approx : float := FNum (Q2Qc (196 # 100)).
Definition t_ppf_975_const (df : float) : float := FNum (Q2Qc (2 # 1)).

(** A linear congruential generator: the state is an integer, one index is
    drawn per step as the new state modulo the population size. *)
Definition lcg_next (s : Z) : Z := ((1103515245 * s + 12345) mod 2147483648)%Z.

Fixpoint lcg_indices (s : Z) (n k : nat) : list nat * Z :=
  match k with
  | O => ([], s)
  | S k' =>
      let s' := lcg_next s in
      let (rest, s'') := lcg_indices s' n k' in
      (Z.to_nat (s' mod Z.of_nat n) :: rest, s'')
  end.

Definition lcg_default_rng (seed : Z) : Z := seed.

(** ** Sample inputs *)

Definition mk_row (n x : Z) (m v : Z) : variant_row :=
  {| users := n; converters := x; arpu := f_of_Z m; arpu_var := f_of_Z v |}.

(** An arm without units, an arm with a single unit, and two ordinary arms. *)
Definition row_empty : variant_row := mk_row 0 0 0 0.
Definition row_single : variant_row := mk_row 1 1 3 2.
Definition row_A : variant_row := mk_row 1000 100 5 4.
Definition row_B : variant_row := mk_row 1000 120 6 9.

(** An arm with the same mean as [row_A]. *)
Definition row_C : variant_row := mk_row 800 90 5 7.

(** Two arms whose metric does not vary at all. *)
Definition row_flat_A : variant_row := mk_row 10 1 5 0.
Definition row_flat_B : variant_row := mk_row 12 2 6 0.

(** Three units with covariates 1, 2 and 4; the outcome of the second one
    is missing. *)
Definition uop_missing_outcome : list Binary64.uop_row :=
  [ {| Binary64.uop_variant := VarA;
       Binary64.uop_Y := Some 1%float; Binary64.uop_X := Some 1%float |};
    {| Binary64.uop_variant := VarA;
       Binary64.uop_Y := None; Binary64.uop_X := Some 2%float |};
    {| Binary64.uop_variant := VarB;
       Binary64.uop_Y := Some 3%float; Binary64.uop_X := Some 4%float |} ].

(** Two 0/1 samples (converted or not). *)
Definition sample_a01 : list float := map f_of_Z [0; 1; 0; 0]%Z.
Definition sample_b01 : list float := map f_of_Z [1; 1; 0]%Z.

(** Two samples without any spread. *)
Definition sample_fives : list float := map f_of_Z [5; 5; 5]%Z.
Definition sample_sevens : list float := map f_of_Z [7; 7]%Z.

(** Two small samples, three calls of which the first and the last have the
    same arguments, and two interleavings of their loop iterations. *)
Definition sample_a : list float := map f_of_Z [1; 2; 4]%Z.
Definition sample_b : list float := map f_of_Z [3; 5]%Z.

Definition sample_pool : list call_args :=
  [(sample_a, sample_b, 2%nat, 102%Z);
   (sample_b, sample_a, 3%nat, 7%Z);
   (sample_a, sample_b, 2%nat, 102%Z)].

Definition sample_schedule : list nat := [0; 1; 2; 1; 2; 0; 1]%nat.
Definition sample_schedule' : list nat := [2; 2; 1; 0; 0; 1; 1; 2]%nat.

(** ** Specification predicates *)

(** [r] is a with-replacement resample of [a]: as long as [a], every entry
    taken from [a]. *)
Definition is_resample_of (a r : list float) : Prop :=
  length r = length a /\ Forall (fun x => x ∈ a) r.

(** [d] is the difference of means of a resample of [b] and one of [a]. *)
Definition is_bootstrap_diff (a b : list float) (d : float) : Prop :=
  exists ra rb,
    is_resample_of a ra /\ is_resample_of b rb /\ d = np_mean rb - np_mean ra.

(** A float that is a number between [l] and [h]. *)
Definition within (l h : Qc) (x : float) : Prop :=
  exists q, x = FNum q /\ (l <= q)%Qc /\ (q <= h)%Qc.

(** A float that is a number (neither nan nor an infinity). *)
Definition finite (x : float) : Prop := exists q, x = FNum q.

(** ** Basic facts about the number model *)

Lemma Qc_sgn_of_Z (n : Z) : Qc_sgn (Qc_of_Z n) = (n ?= 0)%Z.
Proof.
  unfold Qc_sgn, Qccompare, Qcompare; simpl.
  now rewrite Z.mul_1_r.
Qed.

Lemma is_zero_of_Z (n : Z) : is_zero (f_of_Z n) = (n =? 0)%Z.
Proof.
  unfold is_zero, f_of_Z. rewrite Qc_sgn_of_Z, Z.eqb_compare.
  now destruct (n ?= 0)%Z.
Qed.

Lemma py_float_div_int_zero (x : float) :
  py_float_div_int x 0 = Raised ZeroDivisionError.
Proof. reflexivity. Qed.

Lemma py_float_div_int_nonzero (x : float) (n : Z) :
  n <> 0%Z -> py_float_div_int x n = Ok (x / f_of_Z n).
Proof.
  intros Hn. unfold py_float_div_int, py_float_div.
  rewrite is_zero_of_Z. now destruct (Z.eqb_spec n 0).
Qed.

Lemma py_int_truediv_zero (a : Z) :
  py_int_truediv a 0 = Raised ZeroDivisionError.
Proof. reflexivity. Qed.

Lemma py_int_truediv_nonzero (a n : Z) :
  n <> 0%Z -> py_int_truediv a n = Ok (f_of_Z a / f_of_Z n).
Proof.
  intros Hn. unfold py_int_truediv. now destruct (Z.eqb_spec n 0).
Qed.

Lemma Qc_sgn_Gt (q : Qc) : (0 < q)%Qc -> Qc_sgn q = Gt.
Proof. intros H. unfold Qc_sgn. now apply Qcgt_alt. Qed.

Lemma Qc_sgn_Lt (q : Qc) : (q < 0)%Qc -> Qc_sgn q = Lt.
Proof. intros H. unfold Qc_sgn. now apply Qclt_alt. Qed.

Lemma Qc_sgn_Eq (q : Qc) : Qc_sgn q = Eq <-> q = 0%Qc.
Proof. unfold Qc_sgn. symmetry. apply Qceq_alt. Qed.

Lemma Qc_of_Z_pos (n : Z) : (0 < n)%Z -> (0 < Qc_of_Z n)%Qc.
Proof. intros H. rewrite <- Z2Qc_inj_0. exact (proj1 (Z2Qc_inj_lt 0 n) H). Qed.

Lemma half_twice (q : Qc) : (Q2Qc (1 # 2) * (q + q) = q)%Qc.
Proof. apply Qc_is_canon. simpl. rewrite !Qred_correct. ring. Qed.

(** ** The significance tab on degenerate arms *)

Section Significance.

Variable sqrtQc : Qc -> Qc.
Variable norm_cdf : float -> float.
Variable t_cdf : float -> float -> float.

(** C3, as amended: when either arm has no units, the two-proportion test
    stops at [p = x / n] with Python's built-in [ZeroDivisionError]; the tab's
    [except Exception] handler catches it and the tab shows the error and
    nothing else (no rate, no z, no p-value). *)
Theorem conversion_test_zero_units (a b : variant_row) :
  users a = 0%Z \/ users b = 0%Z ->
  conversion_test sqrtQc norm_cdf a b = Raised ZeroDivisionError /\
  tab_tests sqrtQc norm_cdf t_cdf a b = [StError ZeroDivisionError].
Proof.
  intros Hn.
  assert (Hc : conversion_test sqrtQc norm_cdf a b = Raised ZeroDivisionError).
  { unfold conversion_test.
    destruct (Z.eq_dec (users a) 0) as [Ha | Ha].
    - rewrite Ha. reflexivity.
    - destruct Hn as [Ha' | Hb]; [contradiction|].
      rewrite (py_int_truediv_nonzero _ _ Ha), Hb. reflexivity. }
  split; [exact Hc|].
  unfold tab_tests. now rewrite Hc.
Qed.

(** C2: with a single unit in arm A the Welch block never reaches the
    [den > 0] guard: [(a_n**2) * (a_n - 1)] is the integer 0 and the float
    division by it raises [ZeroDivisionError] (unless the division by
    [b_n = 0] two lines earlier already did).  No degrees of freedom are
    produced, neither exact nor fallback. *)
Theorem welch_test_single_unit_raises (a b : variant_row) :
  users a = 1%Z ->
  welch_test sqrtQc t_cdf a b = Raised ZeroDivisionError.
Proof.
  intros Ha. unfold welch_test. rewrite Ha.
  rewrite (py_float_div_int_nonzero (arpu_var a) 1) by lia.
  cbn [obind].
  destruct (Z.eq_dec (users b) 0) as [Hb | Hb].
  - rewrite Hb. reflexivity.
  - rewrite (py_float_div_int_nonzero _ _ Hb). reflexivity.
Qed.

End Significance.

(** The fallback of the Welch block is reached when the denominator itself
    is zero, as it is for two arms without variance: the degrees of freedom
    are then [a_n + b_n - 2]. *)
Example welch_test_fallback_zero_variance :
  exists w,
    welch_test sqrtQc_upper t_cdf_sigmoid row_flat_A row_flat_B = Ok w /\
    arpu_df w = f_of_Z (10 + 12 - 2) /\
    arpu_t w = f0.
Proof. eexists. split; [reflexivity|]. split; reflexivity. Qed.

(** C3, the claim as written fails: with no units in arm A the test ends in
    [ZeroDivisionError], which is not the [InsufficientSample] error. *)
Lemma conversion_test_empty_arm_not_typed :
  conversion_test sqrtQc_upper cdf_sigmoid row_empty row_B
    = Raised ZeroDivisionError /\
  conversion_test sqrtQc_upper cdf_sigmoid row_empty row_B
    <> Raised InsufficientSample.
Proof. split; [reflexivity | discriminate]. Qed.

Lemma conversion_test_zero_units_witness :
  (users row_A = 0%Z \/ users row_empty = 0%Z) /\
  conversion_test sqrtQc_upper cdf_sigmoid row_A row_empty
    = Raised ZeroDivisionError /\
  tab_tests sqrtQc_upper cdf_sigmoid t_cdf_sigmoid row_A row_empty
    = [StError ZeroDivisionError].
Proof.
  split; [right; reflexivity|].
  apply (conversion_test_zero_units sqrtQc_upper cdf_sigmoid t_cdf_sigmoid
           row_A row_empty).
  right; reflexivity.
Defined.

Lemma welch_test_single_unit_raises_witness :
  users row_single = 1%Z /\
  welch_test sqrtQc_upper t_cdf_sigmoid row_single row_B
    = Raised ZeroDivisionError.
Proof.
  split; [reflexivity|].
  apply (welch_test_single_unit_raises sqrtQc_upper t_cdf_sigmoid
           row_single row_B).
  reflexivity.
Defined.

(** ** The SRM check *)

Lemma srm_expected_balanced (n : Z) :
  srm_expected n n = [f_of_Z n; f_of_Z n].
Proof.
  unfold srm_expected, half, f_of_Z. cbn [map fmul].
  now rewrite Z2Qc_inj_add, half_twice.
Qed.

Lemma srm_term_balanced (n : Z) :
  (0 < n)%Z -> fsq (f_of_Z n - f_of_Z n) / f_of_Z n = f0.
Proof.
  intros Hn. unfold fsq, fsub, f_of_Z, f0. cbn [fneg fadd fmul fdiv].
  rewrite (Qc_sgn_Gt (Qc_of_Z n)) by exact (Qc_of_Z_pos n Hn).
  f_equal. unfold Qcdiv. now rewrite Qcplus_opp_r, !Qcmult_0_l.
Qed.

Lemma srm_statistic_balanced (n : Z) :
  (0 < n)%Z -> srm_statistic n n = f0.
Proof.
  intros Hn. unfold srm_statistic, srm_observed.
  rewrite srm_expected_balanced. cbn [zip_with].
  rewrite srm_term_balanced by done. reflexivity.
Qed.

Lemma srm_statistic_no_units : srm_statistic 0 0 = FNaN.
Proof. reflexivity. Qed.

(** C7: on a balanced split ([users_A = users_B > 0]) the observed counts
    equal the expected ones, the statistic is exactly 0, the p-value is
    [1 - cdf 0 = 1] and the interpretation is "No SRM" (not flagged).  The
    only fact used about [stats.chi2.cdf] is that it is 0 at 0. *)
Theorem srm_check_balanced (chi2_cdf : float -> float) (n : Z) :
  chi2_cdf f0 = f0 ->
  (0 < n)%Z ->
  srm_check chi2_cdf n n =
    Ok {| srm_users_A := n;
          srm_users_B := n;
          srm_chi2 := f0;
          srm_p := f1;
          srm_interpretation := NoSRM |}.
Proof.
  intros Hcdf Hn. unfold srm_check.
  rewrite (srm_statistic_balanced n Hn), Hcdf.
  reflexivity.
Qed.

Lemma srm_check_balanced_witness :
  cdf_halfline f0 = f0 /\
  (0 < 10000)%Z /\
  srm_check cdf_halfline 10000 10000 =
    Ok {| srm_users_A := 10000;
          srm_users_B := 10000;
          srm_chi2 := f0;
          srm_p := f1;
          srm_interpretation := NoSRM |}.
Proof.
  split; [reflexivity|]. split; [lia|].
  apply (srm_check_balanced cdf_halfline 10000); [reflexivity | lia].
Defined.

(** C4, as amended: when no unit was observed at all (the only counts, both
    non-negative, for which an expected count is zero under the 50/50
    split), the check raises nothing: each term is [0/0], the statistic is
    nan and the reported p-value is [1 - cdf nan]. *)
Theorem srm_check_zero_total (chi2_cdf : float -> float) (users_a users_b : Z) :
  (0 <= users_a)%Z ->
  (0 <= users_b)%Z ->
  (users_a + users_b = 0)%Z ->
  exists r,
    srm_check chi2_cdf users_a users_b = Ok r /\
    srm_chi2 r = FNaN /\
    srm_p r = f1 - chi2_cdf FNaN.
Proof.
  intros Ha Hb Hsum.
  assert (users_a = 0%Z) by lia. assert (users_b = 0%Z) by lia. subst.
  eexists. split; [reflexivity|]. split; reflexivity.
Qed.

Lemma srm_check_zero_total_witness :
  exists r,
    srm_check cdf_halfline 0 0 = Ok r /\
    srm_chi2 r = FNaN /\
    srm_p r = f1 - cdf_halfline FNaN.
Proof.
  apply (srm_check_zero_total cdf_halfline 0 0); lia.
Defined.

(** C4, the claim as written fails: with zero units in both arms the
    expected counts are zero, yet the check does not fail with
    [InvalidAllocation]; it returns a report whose statistic is nan and
    whose interpretation is "Potential SRM". *)
Lemma srm_check_no_units_not_rejected :
  srm_check cdf_halfline 0 0 =
    Ok {| srm_users_A := 0;
          srm_users_B := 0;
          srm_chi2 := FNaN;
          srm_p := FNaN;
          srm_interpretation := PotentialSRM |} /\
  srm_check cdf_halfline 0 0 <> Raised InvalidAllocation.
Proof. split; [reflexivity | discriminate]. Qed.

(** ** The two-proportion test *)

Local Open Scope Qc_scope.

Lemma Qc_mul_nonneg (p q : Qc) : 0 <= p -> 0 <= q -> 0 <= p * q.
Proof.
  intros Hp Hq. rewrite <- (Qcmult_0_l q). now apply Qcmult_le_compat_r.
Qed.

Lemma Qc_div_nonneg (p n : Qc) : 0 <= p -> 0 < n -> 0 <= p / n.
Proof.
  intros Hp Hn. unfold Qcdiv. apply Qc_mul_nonneg; [done|].
  apply Qclt_le_weak. exact (Qcinv_pos n Hn).
Qed.

Lemma Qc_add_nonneg (p q : Qc) : 0 <= p -> 0 <= q -> 0 <= p + q.
Proof.
  intros Hp Hq. rewrite <- (Qcplus_0_l 0). now apply Qcplus_le_compat.
Qed.

Lemma Qc_div_le_1 (p n : Qc) : p <= n -> 0 < n -> p / n <= 1.
Proof.
  intros Hp Hn. rewrite <- (Qcmult_inv_r n).
  - unfold Qcdiv. apply Qcmult_le_compat_r; [done|].
    apply Qclt_le_weak. exact (Qcinv_pos n Hn).
  - intros ->. now apply (Qclt_not_eq 0 0).
Qed.

Lemma Qc_unit_variance_nonneg (p n : Qc) :
  0 <= p -> p <= 1 -> 0 < n -> 0 <= p * (1 + - p) / n.
Proof.
  intros H0 H1 Hn. apply Qc_div_nonneg; [|done].
  apply Qc_mul_nonneg; [done|]. now apply Qcle_minus_iff in H1.
Qed.

Local Close Scope Qc_scope.

Lemma fdiv_of_Z_pos (q : Qc) (n : Z) :
  (0 < n)%Z -> FNum q / f_of_Z n = FNum (q / Qc_of_Z n)%Qc.
Proof.
  intros Hn. unfold f_of_Z. cbn [fdiv].
  now rewrite (Qc_sgn_Gt _ (Qc_of_Z_pos n Hn)).
Qed.

Lemma Qc_of_Z_nonneg (n : Z) : (0 <= n)%Z -> (0 <= Qc_of_Z n)%Qc.
Proof. intros H. rewrite <- Z2Qc_inj_0. exact (proj1 (Z2Qc_inj_le 0 n) H). Qed.

Lemma Qc_of_Z_le (n m : Z) : (n <= m)%Z -> (Qc_of_Z n <= Qc_of_Z m)%Qc.
Proof. exact (proj1 (Z2Qc_inj_le n m)). Qed.

Lemma fdiv_of_Z_of_Z (x n : Z) :
  (0 < n)%Z -> f_of_Z x / f_of_Z n = FNum (Qc_of_Z x / Qc_of_Z n)%Qc.
Proof. intros Hn. unfold f_of_Z at 1. now apply fdiv_of_Z_pos. Qed.

Section Proportion.

Variable sqrtQc : Qc -> Qc.
Variable norm_cdf : float -> float.
Hypothesis sqrtQc_pos : forall q, (0 < q)%Qc -> (0 < sqrtQc q)%Qc.

Lemma np_sqrt_nonneg_cases (r : Qc) :
  (0 <= r)%Qc ->
  (np_sqrt sqrtQc (FNum r) = f0) \/
  (exists s, np_sqrt sqrtQc (FNum r) = FNum s /\ (0 < s)%Qc).
Proof.
  intros Hr. unfold np_sqrt.
  destruct (Qc_sgn r) eqn:E.
  - now left.
  - exfalso. unfold Qc_sgn in E. apply Qclt_alt in E.
    now apply (Qcle_not_lt _ _ Hr).
  - right. exists (sqrtQc r). split; [done|].
    apply sqrtQc_pos. unfold Qc_sgn in E. now apply Qcgt_alt in E.
Qed.

Lemma guarded_ratio_spec (d se : float) :
  se = f0 \/ (exists s, se = FNum s /\ (0 < s)%Qc) ->
  (if fgtb se f0 then d / se else f0) = (if is_zero se then f0 else d / se).
Proof.
  intros [-> | (s & -> & Hs)]; [reflexivity|].
  unfold fgtb, fltb, f0, is_zero.
  rewrite (Qc_sgn_Gt s Hs).
  now rewrite bool_decide_eq_true_2.
Qed.

(** C8: for arms with [n > 0] units and [0 <= x <= n] successes the test
    returns (never raises) the rates [p = x / n], the effect [p_b - p_a],
    the statistic [z = (p_b - p_a) / se] over the unpooled standard error
    [se = sqrt (p_a (1 - p_a) / n_a + p_b (1 - p_b) / n_b)], with [z = 0]
    when [se = 0], and the p-value [2 (1 - Phi |z|)].  The only fact used
    about [np.sqrt] is that it is positive on positive numbers. *)
Theorem conversion_test_statistic (a b : variant_row) :
  (0 < users a)%Z -> (0 < users b)%Z ->
  (0 <= converters a <= users a)%Z ->
  (0 <= converters b <= users b)%Z ->
  let p_a := f_of_Z (converters a) / f_of_Z (users a) in
  let p_b := f_of_Z (converters b) / f_of_Z (users b) in
  let se := np_sqrt sqrtQc (p_a * (f1 - p_a) / f_of_Z (users a)
                            + p_b * (f1 - p_b) / f_of_Z (users b)) in
  let z := if is_zero se then f0 else (p_b - p_a) / se in
  conversion_test sqrtQc norm_cdf a b =
    Ok {| A_rate := p_a;
          B_rate := p_b;
          B_minus_A := p_b - p_a;
          conv_z := z;
          conv_p := f2 * (f1 - norm_cdf (fabs z)) |}.
Proof.
  intros Hna Hnb [Hxa0 Hxa1] [Hxb0 Hxb1]. cbv zeta.
  unfold conversion_test.
  rewrite !py_int_truediv_nonzero by lia. cbn [obind].
  rewrite !py_float_div_int_nonzero by lia. cbn [obind].
  set (p_a := f_of_Z (converters a) / f_of_Z (users a)).
  set (p_b := f_of_Z (converters b) / f_of_Z (users b)).
  set (se := np_sqrt sqrtQc _).
  rewrite (guarded_ratio_spec (p_b - p_a) se); [reflexivity|].
  subst se p_a p_b.
  rewrite !fdiv_of_Z_of_Z by done.
  cbn [fsub fneg fadd fmul f1]. rewrite !fdiv_of_Z_pos by done.
  cbn [fadd]. apply np_sqrt_nonneg_cases.
  assert (Ha : (0 < Qc_of_Z (users a))%Qc) by now apply Qc_of_Z_pos.
  assert (Hb : (0 < Qc_of_Z (users b))%Qc) by now apply Qc_of_Z_pos.
  apply Qc_add_nonneg; apply Qc_unit_variance_nonneg; try done.
  - apply Qc_div_nonneg; [|done]. exact (Qc_of_Z_nonneg _ Hxa0).
  - apply Qc_div_le_1; [|done]. exact (Qc_of_Z_le _ _ Hxa1).
  - apply Qc_div_nonneg; [|done]. exact (Qc_of_Z_nonneg _ Hxb0).
  - apply Qc_div_le_1; [|done]. exact (Qc_of_Z_le _ _ Hxb1).
Qed.

End Proportion.

Lemma Q2Qc_pos (n : Z) (d : positive) : (0 < n)%Z -> (0 < Q2Qc (n # d))%Qc.
Proof.
  intros Hn. unfold Qclt. change (0 < Qred (n # d))%Q.
  rewrite Qred_correct. unfold Qlt. simpl. lia.
Qed.

Lemma sqrtQc_upper_pos (q : Qc) : (0 < q)%Qc -> (0 < sqrtQc_upper q)%Qc.
Proof.
  intros Hq. unfold sqrtQc_upper.
  assert (Hn : (0 < Qnum q)%Z).
  { unfold Qclt, Qlt in Hq. simpl in Hq. lia. }
  pose proof (Z.sqrt_nonneg (Qnum q * Z.pos (Qden q))) as Hr.
  destruct (Z.eqb_spec (Z.sqrt (Qnum q * Z.pos (Qden q)) *
                        Z.sqrt (Qnum q * Z.pos (Qden q)))
                       (Qnum q * Z.pos (Qden q))) as [E | E];
    apply Q2Qc_pos; nia.
Qed.

Lemma conversion_test_statistic_witness :
  exists r,
    conversion_test sqrtQc_upper cdf_sigmoid row_A row_B = Ok r /\
    A_rate r = FNum (Q2Qc (10 # 100)) /\
    B_rate r = FNum (Q2Qc (12 # 100)) /\
    B_minus_A r = FNum (Q2Qc (2 # 100)).
Proof.
  eexists. split.
  - apply (conversion_test_statistic sqrtQc_upper cdf_sigmoid sqrtQc_upper_pos
             row_A row_B); simpl; lia.
  - repeat split; vm_compute; f_equal; apply Qc_is_canon; reflexivity.
Defined.

(** ** The bootstrap loop *)

Section BootstrapFacts.

Variable Generator : Type.
Variable default_rng : Z -> Generator.
Variable rng_indices : Generator -> nat -> nat -> list nat * Generator.

Local Abbreviation step := (call_step rng_indices).
Local Abbreviation call := (call Generator).

Lemma call_step_done (c : call) : c_todo c = 0%nat -> step c = c.
Proof. intros H. unfold call_step. now rewrite H. Qed.

Lemma call_step_todo (c : call) : c_todo (step c) = pred (c_todo c).
Proof.
  unfold call_step. destruct (c_todo c) eqn:E; [now rewrite E|].
  now repeat case_match.
Qed.

Lemma call_step_samples (c : call) :
  c_a (step c) = c_a c /\ c_b (step c) = c_b c.
Proof.
  unfold call_step. destruct (c_todo c); [done|].
  now repeat case_match.
Qed.

Lemma iter_step_todo (k : nat) (c : call) :
  c_todo (Nat.iter k step c) = (c_todo c - k)%nat.
Proof.
  induction k as [|k IH]; simpl; [lia|].
  rewrite call_step_todo, IH. lia.
Qed.

Lemma iter_step_done (k : nat) (c : call) :
  c_todo c = 0%nat -> Nat.iter k step c = c.
Proof.
  intros H. induction k as [|k IH]; simpl; [done|].
  rewrite IH. now apply call_step_done.
Qed.

(** Once a call has finished, its state is the one reached after exactly
    as many iterations as it had to run. *)
Lemma iter_step_finished (k : nat) (c : call) :
  c_todo (Nat.iter k step c) = 0%nat ->
  Nat.iter k step c = Nat.iter (c_todo c) step c.
Proof.
  intros H. rewrite iter_step_todo in H.
  replace k with ((k - c_todo c) + c_todo c)%nat by lia.
  rewrite Nat.iter_add. apply iter_step_done.
  rewrite iter_step_todo. lia.
Qed.

End BootstrapFacts.

Section Scheduling.

Variable Generator : Type.
Variable default_rng : Z -> Generator.
Variable rng_indices : Generator -> nat -> nat -> list nat * Generator.

Local Abbreviation step := (call_step rng_indices).
Local Abbreviation call := (call Generator).

(** A schedule only ever advances a call by that call's own step function:
    the state of call [i] after the schedule is its initial state advanced
    as many times as the schedule names [i]. *)
Lemma run_schedule_lookup (schedule : list nat) (pool : list call) (i : nat) :
  run_schedule rng_indices schedule pool !! i =
  Nat.iter (count_occ Nat.eq_dec schedule i) step <$> pool !! i.
Proof.
  revert pool. induction schedule as [|j s IH]; intros pool.
  - simpl. now destruct (pool !! i).
  - change (run_schedule rng_indices (j :: s) pool)
      with (run_schedule rng_indices s (pool_step rng_indices pool j)).
    rewrite IH. unfold pool_step. simpl.
    destruct (Nat.eq_dec j i) as [-> | Hne].
    + rewrite list_lookup_alter_eq. destruct (pool !! i); simpl; [|done].
      f_equal. exact (eq_sym (Nat.iter_succ_r (count_occ Nat.eq_dec s i) step c)).
    + now rewrite list_lookup_alter_ne.
Qed.

Lemma finished_call_is_sequential_run
    (schedule : list nat) (args : list call_args) (i : nat)
    (a b : list float) (B : nat) (seed : Z) (c : call) :
  args !! i = Some (a, b, B, seed) ->
  run_schedule rng_indices schedule (start_call default_rng <$> args) !! i
    = Some c ->
  c_todo c = 0%nat ->
  c = Nat.iter B step (call_init default_rng a b B seed).
Proof.
  intros Hargs Hrun Hdone.
  rewrite run_schedule_lookup, list_lookup_fmap, Hargs in Hrun.
  simpl in Hrun. injection Hrun as <-.
  now rewrite (iter_step_finished _ _ _ _ Hdone).
Qed.

(** A call finishes as soon as the schedule has named it [B] times. *)
Lemma scheduled_call_finishes
    (schedule : list nat) (args : list call_args) (i : nat)
    (a b : list float) (B : nat) (seed : Z) :
  args !! i = Some (a, b, B, seed) ->
  (B <= count_occ Nat.eq_dec schedule i)%nat ->
  exists c,
    run_schedule rng_indices schedule (start_call default_rng <$> args) !! i
      = Some c /\
    c_todo c = 0%nat.
Proof.
  intros Hargs Hcount.
  rewrite run_schedule_lookup, list_lookup_fmap, Hargs. simpl.
  eexists. split; [reflexivity|].
  rewrite iter_step_todo. simpl. lia.
Qed.


End Scheduling.

(** ** Percentiles of a finite buffer *)

Lemma finite_not_nan (l : list float) :
  Forall finite l -> existsb is_nan l = false.
Proof.
  induction 1 as [|x l [q ->] _ IH]; [done|]. simpl. exact IH.
Qed.

Lemma sort_le_FNum (p q : Qc) : sort_le (FNum p) (FNum q) <-> (p <= q)%Qc.
Proof.
  unfold sort_le, sort_leb, fleb. apply bool_decide_eq_true.
Qed.

Global Instance sort_le_total : Total sort_le.
Proof.
  intros x y. unfold sort_le.
  destruct x as [p | s |], y as [q | s' |]; simpl; auto;
    repeat match goal with b : bool |- _ => destruct b end; auto.
  destruct (Qc_le_total p q) as [H | H]; [left | right];
    now apply bool_decide_eq_true.
Qed.

Global Instance sort_le_trans : Transitive sort_le.
Proof.
  intros x y z. unfold sort_le.
  destruct x as [p | s |], y as [q | s' |], z as [r | s'' |]; simpl;
    try done;
    repeat match goal with b : bool |- _ => destruct b end; try done.
  rewrite !bool_decide_eq_true. apply Qcle_trans.
Qed.

Lemma StronglySorted_lookup_lt {A} (R : relation A) (l : list A)
    (i j : nat) (x y : A) :
  StronglySorted R l -> (i < j)%nat ->
  l !! i = Some x -> l !! j = Some y -> R x y.
Proof.
  intros Hs. revert i j. induction Hs as [|z l Hs IH Hall]; intros i j Hij Hi Hj.
  - done.
  - destruct j as [|j]; [lia|]. simpl in Hj.
    destruct i as [|i]; simpl in Hi.
    + injection Hi as ->. rewrite Forall_forall in Hall.
      apply Hall. eapply list_elem_of_lookup_2; eauto.
    + apply (IH i j); [lia | done | done].
Qed.

Lemma np_sort_finite (l : list float) :
  Forall finite l -> Forall finite (np_sort l).
Proof.
  intros H. unfold np_sort.
  now rewrite (merge_sort_Permutation sort_le l).
Qed.

Lemma np_sort_length (l : list float) : length (np_sort l) = length l.
Proof. unfold np_sort. now rewrite (merge_sort_Permutation sort_le l). Qed.

(** In a sorted finite buffer, the entries increase with the index. *)
Lemma np_sort_nth_le (l : list float) (i j : nat) :
  Forall finite l -> (i <= j < length l)%nat ->
  exists a b,
    nth i (np_sort l) FNaN = FNum a /\
    nth j (np_sort l) FNaN = FNum b /\
    (a <= b)%Qc.
Proof.
  intros Hfin [Hij Hj].
  pose proof (np_sort_finite l Hfin) as Hsf.
  pose proof (np_sort_length l) as Hlen.
  assert (Hss : StronglySorted sort_le (np_sort l)).
  { unfold np_sort. apply StronglySorted_merge_sort; apply _. }
  set (s := np_sort l) in *.
  assert (Hi' : (i < length s)%nat) by lia.
  assert (Hj' : (j < length s)%nat) by lia.
  destruct (nth_lookup_or_length s i FNaN) as [Hi1 | ?]; [|lia].
  destruct (nth_lookup_or_length s j FNaN) as [Hj1 | ?]; [|lia].
  rewrite Forall_forall in Hsf.
  destruct (Hsf (nth i s FNaN)) as [a Ha].
  { eapply list_elem_of_lookup_2; eauto. }
  destruct (Hsf (nth j s FNaN)) as [b Hb].
  { eapply list_elem_of_lookup_2; eauto. }
  exists a, b. split; [done|]. split; [done|].
  destruct (decide (i = j)) as [-> | Hne].
  - rewrite Ha in Hb. injection Hb as ->. apply Qcle_refl.
  - apply sort_le_FNum. rewrite <- Ha, <- Hb.
    apply (StronglySorted_lookup_lt sort_le s i j); [done | lia | done | done].
Qed.

(** Order facts on canonical rationals are proved on their fractions. *)
Ltac qc_order :=
  unfold Qcle, Qclt, Qcminus, Qcdiv, Qc_of_Z in *;
  cbn [this Qcplus Qcmult Qcopp Qcinv Q2Qc] in *;
  rewrite ?Qred_correct in *.

Lemma lerp_same_bracket (a b g1 g2 : Qc) :
  (a <= b)%Qc -> (g1 <= g2)%Qc ->
  (a + (b - a) * g1 <= a + (b - a) * g2)%Qc.
Proof. intros Hab Hg. qc_order. nra. Qed.

Lemma lerp_upper (a b g : Qc) :
  (a <= b)%Qc -> (g <= 1)%Qc -> (a + (b - a) * g <= b)%Qc.
Proof. intros Hab Hg. qc_order. nra. Qed.

Lemma lerp_lower (a b g : Qc) :
  (a <= b)%Qc -> (0 <= g)%Qc -> (a <= a + (b - a) * g)%Qc.
Proof. intros Hab Hg. qc_order. nra. Qed.

Lemma lerp_FNum (a b g : Qc) :
  lerp (FNum a) (FNum b) (FNum g) = FNum (a + (b - a) * g)%Qc.
Proof.
  unfold lerp, fgeb, fleb, half, fsub, f1. cbn [fneg fadd fmul].
  destruct (bool_decide _); f_equal; ring.
Qed.

Lemma virtual_index_bounds (n : Z) (q : Qc) :
  (1 <= n)%Z -> (0 <= q)%Qc -> (q <= Qc_of_Z 100)%Qc ->
  (0 <= virtual_index n q)%Qc /\ (virtual_index n q <= Qc_of_Z (n - 1))%Qc.
Proof.
  intros Hn Hq0 Hq1. unfold virtual_index.
  assert (Hm : (0 <= Qc_of_Z (n - 1))%Qc) by (apply Qc_of_Z_nonneg; lia).
  assert (Hr0 : (0 <= q / Qc_of_Z 100)%Qc).
  { apply Qc_div_nonneg; [done|]. now apply Qc_of_Z_pos. }
  assert (Hr1 : (q / Qc_of_Z 100 <= 1)%Qc).
  { apply Qc_div_le_1; [done|]. now apply Qc_of_Z_pos. }
  split.
  - now apply Qc_mul_nonneg.
  - rewrite <- (Qcmult_1_r (Qc_of_Z (n - 1))) at 2.
    rewrite !(Qcmult_comm (Qc_of_Z (n - 1))).
    now apply Qcmult_le_compat_r.
Qed.

Lemma virtual_index_mono (n : Z) (q1 q2 : Qc) :
  (1 <= n)%Z -> (q1 <= q2)%Qc ->
  (virtual_index n q1 <= virtual_index n q2)%Qc.
Proof.
  intros Hn Hq. unfold virtual_index.
  assert (Hm : (0 <= Qc_of_Z (n - 1))%Qc) by (apply Qc_of_Z_nonneg; lia).
  rewrite !(Qcmult_comm (Qc_of_Z (n - 1))).
  apply Qcmult_le_compat_r; [|done].
  unfold Qcdiv. apply Qcmult_le_compat_r; [done|].
  apply Qclt_le_weak, Qcinv_pos. now apply Qc_of_Z_pos.
Qed.

(** The integer part of a virtual index and what is left of it. *)
Lemma floor_bounds (v : Qc) (m : Z) :
  (0 <= v)%Qc -> (v <= Qc_of_Z m)%Qc ->
  (0 <= Qfloor v <= m)%Z /\
  (0 <= v - Qc_of_Z (Qfloor v))%Qc /\
  (v - Qc_of_Z (Qfloor v) <= 1)%Qc.
Proof.
  intros H0 Hm.
  pose proof (Qfloor_le v) as Hfl.
  pose proof (Qlt_floor v) as Hlt.
  split; [split|split].
  - change 0%Z with (Qfloor 0). apply Qfloor_resp_le. exact H0.
  - rewrite <- (Qfloor_Z m). apply Qfloor_resp_le. exact Hm.
  - qc_order. lra.
  - qc_order. rewrite inject_Z_plus in Hlt. change (inject_Z 1) with 1%Q in Hlt. lra.
Qed.

Lemma floor_mono (v w : Qc) : (v <= w)%Qc -> (Qfloor v <= Qfloor w)%Z.
Proof. intros H. apply Qfloor_resp_le. exact H. Qed.

(** The percentile of a non-empty finite buffer interpolates between two
    neighbouring sorted entries [a <= b]. *)
Lemma np_percentile_finite (arr : list float) (q : Qc) :
  Forall finite arr -> arr <> [] ->
  (0 <= q)%Qc -> (q <= Qc_of_Z 100)%Qc ->
  exists a b,
    nth (Z.to_nat (Qfloor (virtual_index (Z.of_nat (length arr)) q)))
        (np_sort arr) FNaN = FNum a /\
    nth (Z.to_nat (Z.min (Qfloor (virtual_index (Z.of_nat (length arr)) q) + 1)
                         (Z.of_nat (length arr) - 1)))
        (np_sort arr) FNaN = FNum b /\
    (a <= b)%Qc /\
    np_percentile arr q =
      FNum (a + (b - a) *
              (virtual_index (Z.of_nat (length arr)) q
               - Qc_of_Z (Qfloor (virtual_index (Z.of_nat (length arr)) q))))%Qc.
Proof.
  intros Hfin Hne Hq0 Hq1.
  assert (Hn : (1 <= Z.of_nat (length arr))%Z).
  { destruct arr; [done | simpl; lia]. }
  set (n := Z.of_nat (length arr)) in *.
  destruct (virtual_index_bounds n q Hn Hq0 Hq1) as [Hv0 Hv1].
  destruct (floor_bounds _ _ Hv0 Hv1) as [[Hp0 Hp1] _].
  set (p := Qfloor (virtual_index n q)) in *.
  destruct (np_sort_nth_le arr (Z.to_nat p) (Z.to_nat (Z.min (p + 1) (n - 1))))
    as (a & b & Ha & Hb & Hab); [done | subst n; lia |].
  exists a, b. split; [done|]. split; [done|]. split; [done|].
  unfold np_percentile. rewrite (finite_not_nan arr Hfin).
  fold n. destruct (Z.eqb_spec n 0) as [E | _]; [lia|].
  cbv zeta. fold p. rewrite Ha, Hb. apply lerp_FNum.
Qed.

Lemma np_percentile_mono (arr : list float) (q1 q2 : Qc) :
  Forall finite arr -> arr <> [] ->
  (0 <= q1)%Qc -> (q1 <= q2)%Qc -> (q2 <= Qc_of_Z 100)%Qc ->
  fleb (np_percentile arr q1) (np_percentile arr q2) = true.
Proof.
  intros Hfin Hne Hq0 Hq12 Hq1.
  assert (Hq1' : (q1 <= Qc_of_Z 100)%Qc) by (eapply Qcle_trans; eauto).
  assert (Hq0' : (0 <= q2)%Qc) by (eapply Qcle_trans; eauto).
  assert (Hn : (1 <= Z.of_nat (length arr))%Z).
  { destruct arr; [done | simpl; lia]. }
  destruct (np_percentile_finite arr q1 Hfin Hne Hq0 Hq1')
    as (a1 & b1 & Ha1 & Hb1 & Hab1 & ->).
  destruct (np_percentile_finite arr q2 Hfin Hne Hq0' Hq1)
    as (a2 & b2 & Ha2 & Hb2 & Hab2 & ->).
  set (n := Z.of_nat (length arr)) in *.
  pose proof (virtual_index_mono n q1 q2 Hn Hq12) as Hv.
  destruct (virtual_index_bounds n q1 Hn Hq0 Hq1') as [Hv10 Hv11].
  destruct (virtual_index_bounds n q2 Hn Hq0' Hq1) as [Hv20 Hv21].
  destruct (floor_bounds _ _ Hv10 Hv11) as [[Hp10 Hp11] [Hg10 Hg11]].
  destruct (floor_bounds _ _ Hv20 Hv21) as [[Hp20 Hp21] [Hg20 Hg21]].
  pose proof (floor_mono _ _ Hv) as Hp.
  set (v1 := virtual_index n q1) in *. set (v2 := virtual_index n q2) in *.
  set (p1 := Qfloor v1) in *. set (p2 := Qfloor v2) in *.
  unfold fleb. apply bool_decide_eq_true.
  destruct (Z.eq_dec p1 p2) as [E | E].
  - (* same bracket *)
    rewrite <- E in Ha2, Hb2 |- *.
    rewrite Ha1 in Ha2. rewrite Hb1 in Hb2.
    injection Ha2 as <-. injection Hb2 as <-.
    apply lerp_same_bracket; [done|].
    clear -Hv. qc_order. lra.
  - (* the upper bracket starts at or after the end of the lower one *)
    destruct (np_sort_nth_le arr (Z.to_nat (Z.min (p1 + 1) (n - 1)))
                (Z.to_nat p2))
      as (b1' & a2' & Hb1' & Ha2' & Hba); [done | subst n; lia |].
    rewrite Hb1 in Hb1'. injection Hb1' as <-.
    rewrite Ha2 in Ha2'. injection Ha2' as <-.
    eapply Qcle_trans; [apply lerp_upper; done|].
    eapply Qcle_trans; [exact Hba|].
    apply lerp_lower; done.
Qed.

Lemma foldl_fadd_finite (l : list float) (acc : Qc) :
  Forall finite l -> finite (foldl fadd (FNum acc) l).
Proof.
  intros H. revert acc. induction H as [|x l [q ->] _ IH]; intros acc.
  - now exists acc.
  - cbn [foldl fadd]. apply IH.
Qed.

Lemma np_sum_finite (l : list float) : Forall finite l -> finite (np_sum l).
Proof. apply foldl_fadd_finite. Qed.

Lemma np_mean_finite (l : list float) :
  l <> [] -> Forall finite l -> finite (np_mean l).
Proof.
  intros Hne Hfin. unfold np_mean, f_of_nat.
  destruct (np_sum_finite l Hfin) as [s ->].
  rewrite fdiv_of_Z_pos; [eexists; reflexivity|].
  destruct l; [done | simpl; lia].
Qed.

Lemma resample_finite (a r : list float) :
  a <> [] -> Forall finite a -> is_resample_of a r ->
  r <> [] /\ Forall finite r.
Proof.
  intros Hne Hfin [Hlen Hin]. split.
  - intros ->. destruct a; [done | discriminate].
  - rewrite Forall_forall in Hfin |- *. rewrite Forall_forall in Hin.
    intros x Hx. apply Hfin, Hin, Hx.
Qed.

Lemma bootstrap_diff_finite (a b : list float) (d : float) :
  a <> [] -> b <> [] -> Forall finite a -> Forall finite b ->
  is_bootstrap_diff a b d -> finite d.
Proof.
  intros Ha Hb Hfa Hfb (ra & rb & Hra & Hrb & ->).
  destruct (resample_finite a ra Ha Hfa Hra) as [Hra1 Hra2].
  destruct (resample_finite b rb Hb Hfb Hrb) as [Hrb1 Hrb2].
  destruct (np_mean_finite ra Hra1 Hra2) as [ma ->].
  destruct (np_mean_finite rb Hrb1 Hrb2) as [mb ->].
  eexists. reflexivity.
Qed.

Lemma percentile_levels :
  (0 <= q2_5)%Qc /\ (q2_5 <= q97_5)%Qc /\ (q97_5 <= Qc_of_Z 100)%Qc.
Proof. unfold Qcle, Qle. simpl. lia. Qed.

Lemma ci_of_diffs_ordered (diffs : list float) :
  diffs <> [] -> Forall finite diffs ->
  fleb (ci_of_diffs diffs).2.1 (ci_of_diffs diffs).2.2 = true.
Proof.
  intros Hne Hfin. unfold ci_of_diffs. cbn [fst snd].
  destruct percentile_levels as (H0 & H1 & H2).
  now apply np_percentile_mono.
Qed.

(** The arrays the script hands to the estimators hold numbers only. *)
Lemma outcome_column_finite (cells : list (option Qc)) :
  Forall finite (outcome_column cells).
Proof.
  unfold outcome_column. apply Forall_map, Forall_forall.
  intros [q|] _; eexists; reflexivity.
Qed.

(** ** The distribution buffer *)

Section Resampling.

Variable Generator : Type.
Variable default_rng : Z -> Generator.
Variable rng_indices : Generator -> nat -> nat -> list nat * Generator.

(** What NumPy guarantees about the index draw: as many indices as asked
    for, each one inside the population. *)
Hypothesis rng_indices_length :
  forall g n k, length (rng_indices g n k).1 = k.
Hypothesis rng_indices_bound :
  forall g n k, (0 < n)%nat -> Forall (fun i => (i < n)%nat) (rng_indices g n k).1.

Local Abbreviation step := (call_step rng_indices).
Local Abbreviation call := (call Generator).

Lemma rng_choice_resample (g : Generator) (a : list float) :
  is_resample_of a (rng_choice rng_indices g a (length a)).1.
Proof.
  unfold rng_choice.
  pose proof (rng_indices_length g (length a) (length a)) as Hlen.
  pose proof (rng_indices_bound g (length a) (length a)) as Hb.
  destruct (rng_indices g (length a) (length a)) as [idx g']. simpl in *.
  split; [now rewrite length_map|].
  apply Forall_map, Forall_forall. intros i Hi.
  destruct a as [|x a].
  - simpl in Hlen. apply nil_length_inv in Hlen. subst. now apply elem_of_nil in Hi.
  - assert (Hpos : (0 < length (x :: a))%nat) by (simpl; lia).
    specialize (Hb Hpos). rewrite Forall_forall in Hb.
    apply list_elem_of_In, nth_In. now apply Hb.
Qed.

Lemma call_step_invariant (B : nat) (c : call) :
  (length (c_diffs c) + c_todo c)%nat = B ->
  Forall (is_bootstrap_diff (c_a c) (c_b c)) (c_diffs c) ->
  (length (c_diffs (step c)) + c_todo (step c))%nat = B /\
  Forall (is_bootstrap_diff (c_a c) (c_b c)) (c_diffs (step c)).
Proof.
  intros Hlen Hall. unfold call_step.
  destruct (c_todo c) as [|k] eqn:E; [now rewrite E|].
  pose proof (rng_choice_resample (c_rng c) (c_a c)) as Ha.
  destruct (rng_choice rng_indices (c_rng c) (c_a c) (length (c_a c)))
    as [ai g1].
  pose proof (rng_choice_resample g1 (c_b c)) as Hb.
  destruct (rng_choice rng_indices g1 (c_b c) (length (c_b c))) as [bi g2].
  simpl in *. split.
  - rewrite length_app. simpl. lia.
  - apply Forall_app. split; [done|].
    apply Forall_singleton. now exists ai, bi.
Qed.

Lemma iter_step_invariant (B k : nat) (c : call) :
  (length (c_diffs c) + c_todo c)%nat = B ->
  Forall (is_bootstrap_diff (c_a c) (c_b c)) (c_diffs c) ->
  (length (c_diffs (Nat.iter k step c)) + c_todo (Nat.iter k step c))%nat = B /\
  Forall (is_bootstrap_diff (c_a c) (c_b c)) (c_diffs (Nat.iter k step c)).
Proof.
  intros Hlen Hall. induction k as [|k [IH1 IH2]]; [done|].
  simpl.
  assert (Hs : c_a (Nat.iter k step c) = c_a c /\
               c_b (Nat.iter k step c) = c_b c).
  { clear. induction k as [|k [IHa IHb]]; [done|]. simpl.
    destruct (call_step_samples _ rng_indices (Nat.iter k step c)) as [-> ->].
    done. }
  destruct Hs as [Hsa Hsb].
  rewrite <- Hsa, <- Hsb in IH2 |- *.
  now apply call_step_invariant.
Qed.


Lemma bootstrap_buffer_finite (a b : list float) (B : nat) (seed : Z) :
  a <> [] -> b <> [] -> Forall finite a -> Forall finite b ->
  length (bootstrap_samples_mean_diff default_rng rng_indices a b B seed) = B /\
  Forall finite (bootstrap_samples_mean_diff default_rng rng_indices a b B seed).
Proof.
  intros Ha Hb Hfa Hfb. unfold bootstrap_samples_mean_diff.
  destruct (iter_step_invariant B B (call_init default_rng a b B seed))
    as [Hlen Hall]; [done | done |].
  rewrite iter_step_todo in Hlen. simpl in Hlen, Hall.
  split; [lia|].
  eapply Forall_impl; [exact Hall|].
  intros d Hd. now apply (bootstrap_diff_finite a b).
Qed.


(** Whatever the generator, an empty arm A turns the whole interval into
    nan: every resample of A is empty and the mean of nothing is nan. *)
Lemma empty_arm_interval_nan (b : list float) (B : nat) (seed : Z) :
  (1 <= B)%nat ->
  (bootstrap_ci_mean_diff default_rng rng_indices [] b B seed).2 = (FNaN, FNaN).
Proof.
  intros HB. unfold bootstrap_ci_mean_diff, bootstrap_samples_mean_diff.
  destruct (iter_step_invariant B B (call_init default_rng [] b B seed))
    as [Hlen Hall]; [done | done |].
  rewrite iter_step_todo in Hlen. simpl in Hlen, Hall.
  set (diffs := c_diffs _) in *.
  assert (Hnan : existsb is_nan diffs = true).
  { destruct diffs as [|d diffs]; [simpl in Hlen; lia|].
    apply Forall_cons in Hall as [(ra & rb & [Hra _] & _ & ->) _].
    destruct ra; [|discriminate].
    simpl. now destruct (np_mean rb). }
  unfold ci_of_diffs, np_percentile. cbn [snd]. now rewrite Hnan.
Qed.

End Resampling.

(** ** The linear congruential generator meets the index-draw contract *)

Lemma lcg_indices_length (s : Z) (n k : nat) :
  length (lcg_indices s n k).1 = k.
Proof.
  revert s. induction k as [|k IH]; intros s; [done|].
  simpl. specialize (IH (lcg_next s)).
  destruct (lcg_indices (lcg_next s) n k). simpl in *. now rewrite IH.
Qed.

Lemma lcg_indices_bound (s : Z) (n k : nat) :
  (0 < n)%nat -> Forall (fun i => (i < n)%nat) (lcg_indices s n k).1.
Proof.
  intros Hn. revert s. induction k as [|k IH]; intros s; [constructor|].
  simpl. specialize (IH (lcg_next s)).
  destruct (lcg_indices (lcg_next s) n k). simpl in *.
  constructor; [|done].
  pose proof (Z.mod_pos_bound (lcg_next s) (Z.of_nat n)). lia.
Qed.



(** The point estimate is the mean of the resampled differences; on the
    sample data it differs from the observed difference of means. *)
Example point_estimate_is_not_observed_difference :
  (bootstrap_ci_mean_diff lcg_default_rng lcg_indices sample_a sample_b 3 102).1
  <> np_mean sample_b - np_mean sample_a.
Proof. vm_compute. intros H. injection H as H. discriminate H. Qed.

Lemma sample_finite : Forall finite sample_a /\ Forall finite sample_b.
Proof. split; repeat constructor; eexists; reflexivity. Qed.



(** ** CUPED over binary64 *)

Section CupedFacts.

Import Binary64.
Local Open Scope float_scope.

Lemma is_finite_SF (c : PrimFloat.float) :
  PrimFloat.is_finite c = true ->
  (exists s, Prim2SF c = S754_zero s) \/
  (exists s m e, Prim2SF c = S754_finite s m e).
Proof.
  unfold PrimFloat.is_finite, PrimFloat.is_nan, PrimFloat.is_infinity.
  rewrite !FloatAxioms.eqb_spec, FloatAxioms.abs_spec.
  change (Prim2SF infinity) with (S754_infinity false).
  destruct (Prim2SF c) as [s | s | | s m e]; try discriminate; eauto.
  destruct s; discriminate.
Qed.

(** A finite float minus itself is [+0.0]. *)
Lemma sub_self_finite (c : PrimFloat.float) :
  PrimFloat.is_finite c = true -> c - c = 0.
Proof.
  intros Hf. apply Prim2SF_inj. rewrite FloatAxioms.sub_spec.
  change (Prim2SF 0) with (S754_zero false).
  destruct (is_finite_SF c Hf) as [[s ->] | (s & m & e & ->)].
  - destruct s; reflexivity.
  - unfold SF64sub, SFsub. cbv zeta. rewrite Z.sub_diag. reflexivity.
Qed.

(** Subtracting [+0.0] changes nothing, not even the sign of a zero. *)
Lemma sub_zero_r (y : PrimFloat.float) : y - 0 = y.
Proof.
  apply Prim2SF_inj. rewrite FloatAxioms.sub_spec.
  change (Prim2SF 0) with (S754_zero false).
  destruct (Prim2SF y) as [s | s | | s m e]; try reflexivity.
  destruct s; reflexivity.
Qed.

(** [0.0 / y] is a zero or nan, never positive. *)
Lemma zero_div_not_pos (y : PrimFloat.float) : (0 <? 0 / y) = false.
Proof.
  rewrite FloatAxioms.ltb_spec, FloatAxioms.div_spec.
  change (Prim2SF 0) with (S754_zero false).
  destruct (Prim2SF y) as [s | s | | s m e]; reflexivity.
Qed.

Lemma np_sum_zeros (n : nat) : np_sum (repeat 0 n) = 0.
Proof.
  unfold np_sum. induction n as [|n IH]; [reflexivity|].
  cbn [repeat foldl]. change (0 + 0) with 0. exact IH.
Qed.

Lemma constant_covariate_array (uop : list uop_row) (c : PrimFloat.float) :
  Forall (fun r => fillna0 (uop_X r) = c) uop ->
  map (fun r => fillna0 (uop_X r)) uop = repeat c (length uop).
Proof.
  induction 1 as [|r uop Hr _ IH]; simpl; [done|].
  now rewrite Hr, IH.
Qed.

Lemma zip_with_repeat_r {A B C} (f : A -> B -> C) (l : list A) (x : B) :
  zip_with f l (repeat x (length l)) = map (fun y => f y x) l.
Proof. induction l as [|y l IH]; simpl; [done | now rewrite IH]. Qed.


End CupedFacts.

Section CupedCases.

Import Binary64.
Local Open Scope float_scope.


Lemma float_neq_by_eqb (x y z : PrimFloat.float) :
  (x =? z) = true -> (y =? z) = false -> y <> x.
Proof. intros Hx Hy ->. congruence. Qed.


Lemma fillna0_idem (c : option PrimFloat.float) :
  fillna0 (Some (fillna0 c)) = fillna0 c.
Proof.
  destruct c as [x|]; [|reflexivity].
  cbn [fillna0]. destruct (PrimFloat.is_nan x) eqn:E.
  - reflexivity.
  - now rewrite E.
Qed.

(** C10: a row whose covariate is missing is processed exactly as the same
    row with covariate 0.0: [theta], the pooled mean of X and all adjusted
    outcomes are those of the zero-filled table; no row is dropped (one
    adjusted outcome per input row) and the covariate column holds 0.0 at
    the missing positions. *)
Theorem cuped_missing_covariate_is_zero (uop : list uop_row) :
  tab_cuped_adjust uop = tab_cuped_adjust (map zero_missing_X uop) /\
  length (cuped_Y_cuped (tab_cuped_adjust uop)) = length uop /\
  (forall i r, uop !! i = Some r -> uop_X r = None ->
     cuped_X (tab_cuped_adjust uop) !! i = Some 0%float).
Proof.
  split; [|split].
  - unfold tab_cuped_adjust. rewrite !map_map.
    assert (HX : map (fun r => fillna0 (uop_X (zero_missing_X r))) uop
                 = map (fun r => fillna0 (uop_X r)) uop).
    { apply map_ext. intros r. apply fillna0_idem. }
    rewrite HX. reflexivity.
  - unfold tab_cuped_adjust. cbn [cuped_Y_cuped].
    rewrite length_zip_with, !length_map. lia.
  - intros i r Hi HX. unfold tab_cuped_adjust. cbn [cuped_X].
    change (map ?f uop) with (f <$> uop).
    rewrite list_lookup_fmap, Hi. simpl. now rewrite HX.
Qed.

End CupedCases.

(** * Further properties of the script *)

Section TestErrors.

Variable sqrtQc : Qc -> Qc.
Variable norm_cdf : float -> float.
Variable t_cdf : float -> float -> float.

Lemma conversion_test_nonzero_ok (a b : variant_row) :
  users a <> 0%Z -> users b <> 0%Z ->
  exists c, conversion_test sqrtQc norm_cdf a b = Ok c.
Proof.
  intros Ha Hb. unfold conversion_test.
  rewrite !py_int_truediv_nonzero by done. cbn [obind].
  rewrite !py_float_div_int_nonzero by done. cbn [obind].
  eexists. reflexivity.
Qed.

Lemma conversion_test_zero_raises (a b : variant_row) :
  users a = 0%Z \/ users b = 0%Z ->
  conversion_test sqrtQc norm_cdf a b = Raised ZeroDivisionError.
Proof.
  intros Hn. unfold conversion_test.
  destruct (Z.eq_dec (users a) 0%Z) as [Ha | Ha]; [now rewrite Ha|].
  destruct Hn as [Ha' | Hb]; [contradiction|].
  rewrite (py_int_truediv_nonzero _ _ Ha), Hb. reflexivity.
Qed.

(** X1: the two-proportion test raises, and then [ZeroDivisionError],
    exactly when an arm has no units; in every other case, also for
    successes outside [0, n] or negative sizes, it returns a report. *)
Theorem conversion_test_raises_iff (a b : variant_row) :
  (conversion_test sqrtQc norm_cdf a b = Raised ZeroDivisionError <->
   (users a = 0%Z \/ users b = 0%Z)) /\
  ((exists c, conversion_test sqrtQc norm_cdf a b = Ok c) <->
   (users a <> 0%Z /\ users b <> 0%Z)).
Proof.
  split; split.
  - intros He.
    destruct (Z.eq_dec (users a) 0%Z) as [Ha | Ha]; [now left|].
    destruct (Z.eq_dec (users b) 0%Z) as [Hb | Hb]; [now right|].
    destruct (conversion_test_nonzero_ok a b Ha Hb) as [c Hc]. congruence.
  - apply conversion_test_zero_raises.
  - intros [c Hc]. split; intros E;
      rewrite conversion_test_zero_raises in Hc by tauto; discriminate.
  - intros [Ha Hb]. now apply conversion_test_nonzero_ok.
Qed.

Lemma welch_test_regular_ok (a b : variant_row) :
  users a <> 0%Z -> users a <> 1%Z -> users b <> 0%Z -> users b <> 1%Z ->
  exists w, welch_test sqrtQc t_cdf a b = Ok w.
Proof.
  intros Ha0 Ha1 Hb0 Hb1.
  assert (users a * users a * (users a - 1) <> 0)%Z by nia.
  assert (users b * users b * (users b - 1) <> 0)%Z by nia.
  unfold welch_test.
  rewrite !py_float_div_int_nonzero by done. cbn [obind].
  destruct (fgtb _ f0) eqn:E; cbn [obind].
  - unfold py_float_div.
    destruct (is_zero _) eqn:Ez.
    + exfalso. unfold fgtb, fltb, is_zero, f0 in *.
      destruct (_ + _) as [q | s |]; try discriminate.
      destruct (Qc_sgn q) eqn:Es; try discriminate.
      apply Qc_sgn_Eq in Es. subst q.
      apply bool_decide_eq_true in E. now apply (Qclt_not_eq 0 0).
    + eexists. reflexivity.
  - eexists. reflexivity.
Qed.

Lemma welch_test_degenerate_raises (a b : variant_row) :
  users a = 0%Z \/ users a = 1%Z \/ users b = 0%Z \/ users b = 1%Z ->
  welch_test sqrtQc t_cdf a b = Raised ZeroDivisionError.
Proof.
  intros Hn. unfold welch_test.
  destruct (Z.eq_dec (users a) 0%Z) as [Ha0 | Ha0]; [now rewrite Ha0|].
  rewrite (py_float_div_int_nonzero (arpu_var a) _ Ha0). cbn [obind].
  destruct (Z.eq_dec (users b) 0%Z) as [Hb0 | Hb0]; [now rewrite Hb0|].
  rewrite (py_float_div_int_nonzero (arpu_var b) _ Hb0). cbn [obind].
  destruct (Z.eq_dec (users a) 1%Z) as [Ha1 | Ha1]; [now rewrite Ha1|].
  assert (Hda : (users a * users a * (users a - 1) <> 0)%Z) by nia.
  rewrite (py_float_div_int_nonzero _ _ Hda). cbn [obind].
  assert (Hb1 : users b = 1%Z) by tauto.
  now rewrite Hb1.
Qed.



End TestErrors.

Lemma fsub_self (c : Qc) : FNum c - FNum c = f0.
Proof. unfold fsub, f0. cbn [fneg fadd]. f_equal. ring. Qed.

Lemma fneg_zero : fneg f0 = f0.
Proof. reflexivity. Qed.

Lemma fsub_swap (p q : Qc) : FNum p - FNum q = fneg (FNum q - FNum p).
Proof. unfold fsub. cbn [fneg fadd]. f_equal. ring. Qed.

Lemma Qc_sgn_opp (q : Qc) : Qc_sgn (- q) = CompOpp (Qc_sgn q).
Proof.
  destruct (Qc_sgn q) eqn:E; simpl.
  - apply Qc_sgn_Eq in E. subst q. reflexivity.
  - apply Qc_sgn_Gt. unfold Qc_sgn in E. apply Qclt_alt in E.
    qc_order. lra.
  - apply Qc_sgn_Lt. unfold Qc_sgn in E. apply Qcgt_alt in E.
    qc_order. lra.
Qed.

Lemma fabs_fneg (x : float) : fabs (fneg x) = fabs x.
Proof.
  destruct x as [q | s |]; try reflexivity.
  cbn [fneg fabs]. rewrite Qc_sgn_opp.
  destruct (Qc_sgn q) eqn:E; simpl.
  - apply Qc_sgn_Eq in E. subst q. reflexivity.
  - reflexivity.
  - f_equal. apply Qcopp_involutive.
Qed.

(** A zero numerator over a positive standard error is zero. *)
Lemma zero_over_positive (se : float) : fgtb se f0 = true -> f0 / se = f0.
Proof.
  destruct se as [s | [] |]; try discriminate; [|reflexivity].
  unfold fgtb, fltb, f0. intros H. apply bool_decide_eq_true in H.
  cbn [fdiv]. rewrite (Qc_sgn_Gt s H). f_equal.
  unfold Qcdiv. apply Qcmult_0_l.
Qed.

Lemma fdiv_fneg_l (d se : float) :
  fgtb se f0 = true -> fneg d / se = fneg (d / se).
Proof.
  destruct se as [s | [] |]; try discriminate.
  - unfold fgtb, fltb, f0. intros H. apply bool_decide_eq_true in H.
    destruct d as [q | b |]; cbn [fneg fdiv]; rewrite ?(Qc_sgn_Gt s H);
      try reflexivity.
    cbn [fneg]. f_equal. unfold Qcdiv. ring.
  - intros _. destruct d as [q | b |]; reflexivity.
Qed.

Lemma guarded_zero_ratio (se : float) :
  (if fgtb se f0 then f0 / se else f0) = f0.
Proof.
  destruct (fgtb se f0) eqn:E; [now apply zero_over_positive | reflexivity].
Qed.

Section FurtherTests.

Variable sqrtQc : Qc -> Qc.
Variable norm_cdf : float -> float.
Variable t_cdf : float -> float -> float.


End FurtherTests.

Lemma fdiv_of_Z_nonzero (q : Qc) (n : Z) :
  n <> 0%Z -> FNum q / f_of_Z n = FNum (q / Qc_of_Z n)%Qc.
Proof.
  intros Hn. unfold f_of_Z. cbn [fdiv]. rewrite Qc_sgn_of_Z.
  destruct (Z.compare_spec n 0); [contradiction | reflexivity | reflexivity].
Qed.

Lemma fdiv_of_Z_of_Z_nonzero (x n : Z) :
  n <> 0%Z -> f_of_Z x / f_of_Z n = FNum (Qc_of_Z x / Qc_of_Z n)%Qc.
Proof. intros Hn. unfold f_of_Z at 1. now apply fdiv_of_Z_nonzero. Qed.

Lemma guarded_ratio_fneg (d se : float) :
  (if fgtb se f0 then fneg d / se else f0)
  = fneg (if fgtb se f0 then d / se else f0).
Proof.
  destruct (fgtb se f0) eqn:E; [now apply fdiv_fneg_l | reflexivity].
Qed.

Section Swap.

Variable sqrtQc : Qc -> Qc.
Variable norm_cdf : float -> float.

(** X6: exchanging the two arms exchanges the rates, negates the effect and
    the z statistic, and leaves the p-value unchanged. *)
Theorem conversion_test_swap (a b : variant_row) (c : conv_report) :
  conversion_test sqrtQc norm_cdf a b = Ok c ->
  exists c',
    conversion_test sqrtQc norm_cdf b a = Ok c' /\
    A_rate c' = B_rate c /\
    B_rate c' = A_rate c /\
    B_minus_A c' = fneg (B_minus_A c) /\
    conv_z c' = fneg (conv_z c) /\
    conv_p c' = conv_p c.
Proof.
  intros Hc.
  assert (Ha : users a <> 0%Z).
  { intros E. rewrite (conversion_test_zero_raises sqrtQc norm_cdf a b) in Hc
      by tauto. discriminate. }
  assert (Hb : users b <> 0%Z).
  { intros E. rewrite (conversion_test_zero_raises sqrtQc norm_cdf a b) in Hc
      by tauto. discriminate. }
  unfold conversion_test in *.
  rewrite !py_int_truediv_nonzero in * by done. cbn [obind] in *.
  rewrite !py_float_div_int_nonzero in * by done. cbn [obind] in *.
  rewrite !fdiv_of_Z_of_Z_nonzero in * by done.
  set (pa := (Qc_of_Z (converters a) / Qc_of_Z (users a))%Qc) in *.
  set (pb := (Qc_of_Z (converters b) / Qc_of_Z (users b))%Qc) in *.
  cbn [fsub fneg fadd fmul f1] in *.
  rewrite !fdiv_of_Z_nonzero in * by done. cbn [fadd] in *.
  injection Hc as <-. eexists. split; [reflexivity|].
  cbn [A_rate B_rate B_minus_A conv_z conv_p].
  split; [reflexivity|]. split; [reflexivity|].
  assert (Hd : FNum (pa + - pb) = fneg (FNum (pb + - pa))).
  { cbn [fneg]. f_equal. ring. }
  rewrite (Qcplus_comm (pb * _ / _)).
  rewrite Hd, guarded_ratio_fneg, fabs_fneg.
  repeat split.
Qed.

End Swap.

Lemma half_is_inverse_of_two : Q2Qc (1 # 2) = (/ (1 + 1))%Qc.
Proof. apply Qc_is_canon. reflexivity. Qed.

Lemma Qc_of_Z_nonzero (n : Z) : n <> 0%Z -> Qc_of_Z n <> 0%Qc.
Proof. intros Hn E. rewrite <- Z2Qc_inj_0 in E. now apply Z2Qc_inj in E. Qed.

Lemma Qc_sgn_nonzero_div (p q : Qc) :
  q <> 0%Qc -> FNum p / FNum q = FNum (p / q)%Qc.
Proof.
  intros Hq. cbn [fdiv]. destruct (Qc_sgn q) eqn:E; try reflexivity.
  now apply Qc_sgn_Eq in E.
Qed.


Lemma Qc_div_le_upper (n d c : Qc) :
  (0 < d)%Qc -> (n <= c * d)%Qc -> (n / d <= c)%Qc.
Proof.
  intros Hd H. qc_order. apply Qle_shift_div_r; assumption.
Qed.

Lemma Qc_div_le_lower (n d c : Qc) :
  (0 < d)%Qc -> (c * d <= n)%Qc -> (c <= n / d)%Qc.
Proof.
  intros Hd H. qc_order. apply Qle_shift_div_l; assumption.
Qed.

Lemma Q_square_nonneg (x : Q) : (0 <= x * x)%Q.
Proof. unfold Qle, Qmult. simpl. nia. Qed.

(** The Welch-Satterthwaite quotient, with [x = s p] and [y = t q] the two
    variance terms and [p], [q] the two sample sizes minus one. *)
Lemma satterthwaite_bounds (s t p q m : Qc) :
  (0 <= s)%Qc -> (0 <= t)%Qc -> (1 <= p)%Qc -> (1 <= q)%Qc ->
  (m <= p)%Qc -> (m <= q)%Qc ->
  (0 < s * s * p + t * t * q)%Qc ->
  (m <= (s * p + t * q) * (s * p + t * q) / (s * s * p + t * t * q))%Qc /\
  ((s * p + t * q) * (s * p + t * q) / (s * s * p + t * t * q) <= p + q)%Qc.
Proof.
  intros Hs Ht Hp Hq Hmp Hmq Hd. split.
  - apply Qc_div_le_lower; [exact Hd|]. qc_order.
    assert (Hss : (0 <= this s * this s)%Q) by (apply Qmult_le_0_compat; lra).
    assert (Htt : (0 <= this t * this t)%Q) by (apply Qmult_le_0_compat; lra).
    assert (Hst : (0 <= this s * this t)%Q) by (apply Qmult_le_0_compat; lra).
    assert (Hpq : (0 <= this p * this q)%Q) by (apply Qmult_le_0_compat; lra).
    assert (H1 : (0 <= (this p - this m) * (this s * this s * this p))%Q).
    { apply Qmult_le_0_compat; [lra|]. apply Qmult_le_0_compat; lra. }
    assert (H2 : (0 <= (this q - this m) * (this t * this t * this q))%Q).
    { apply Qmult_le_0_compat; [lra|]. apply Qmult_le_0_compat; lra. }
    assert (H3 : (0 <= (this s * this t) * (this p * this q))%Q)
      by (apply Qmult_le_0_compat; lra).
    lra.
  - apply Qc_div_le_upper; [exact Hd|]. qc_order.
    assert (Hpq : (0 <= this p * this q)%Q) by (apply Qmult_le_0_compat; lra).
    pose proof (Q_square_nonneg (this s - this t)) as Hsq.
    assert (0 <= this p * this q * ((this s - this t) * (this s - this t)))%Q
      by (apply Qmult_le_0_compat; assumption).
    lra.
Qed.

Section DegreesOfFreedom.

Variable sqrtQc : Qc -> Qc.
Variable t_cdf : float -> float -> float.


End DegreesOfFreedom.

Section Prefix.

Variable Generator : Type.
Variable default_rng : Z -> Generator.
Variable rng_indices : Generator -> nat -> nat -> list nat * Generator.

Local Abbreviation step := (call_step rng_indices).
Local Abbreviation call := (call Generator).

(** A step only appends to the buffer, one entry when the call is running. *)
Lemma call_step_appends (c : call) :
  exists l, c_diffs (step c) = c_diffs c ++ l /\
            length l = (c_todo c - c_todo (step c))%nat.
Proof.
  unfold call_step. destruct (c_todo c) as [|k] eqn:E.
  - exists []. rewrite E. split; [now rewrite app_nil_r | simpl; lia].
  - repeat case_match. simpl. eexists. split; [reflexivity | simpl; lia].
Qed.

Lemma iter_step_appends (k : nat) (c : call) :
  exists l, c_diffs (Nat.iter k step c) = c_diffs c ++ l /\
            length l = (c_todo c - c_todo (Nat.iter k step c))%nat.
Proof.
  induction k as [|k (l & Hl & Hlen)].
  - exists []. split; [now rewrite app_nil_r | simpl; lia].
  - simpl. destruct (call_step_appends (Nat.iter k step c)) as (l' & Hl' & Hlen').
    exists (l ++ l'). rewrite Hl', Hl, app_assoc. split; [done|].
    rewrite length_app, Hlen, Hlen'.
    pose proof (iter_step_todo _ rng_indices k c).
    pose proof (call_step_todo _ rng_indices (Nat.iter k step c)). lia.
Qed.

(** Two running calls that agree on generator, samples and buffer still
    agree after a step, whatever remains to be done. *)
Lemma call_step_agree (c c' : call) :
  c_todo c <> 0%nat -> c_todo c' <> 0%nat ->
  c_rng c = c_rng c' -> c_a c = c_a c' -> c_b c = c_b c' ->
  c_diffs c = c_diffs c' ->
  c_rng (step c) = c_rng (step c') /\ c_diffs (step c) = c_diffs (step c').
Proof.
  intros H0 H0' Hr Ha Hb Hd. unfold call_step.
  destruct (c_todo c) as [|k]; [done|].
  destruct (c_todo c') as [|k']; [done|].
  rewrite Hr, Ha, Hb, Hd. now repeat case_match.
Qed.

Lemma iter_step_agree (k : nat) (c c' : call) :
  (k <= c_todo c)%nat -> (k <= c_todo c')%nat ->
  c_rng c = c_rng c' -> c_a c = c_a c' -> c_b c = c_b c' ->
  c_diffs c = c_diffs c' ->
  c_rng (Nat.iter k step c) = c_rng (Nat.iter k step c') /\
  c_diffs (Nat.iter k step c) = c_diffs (Nat.iter k step c').
Proof.
  intros Hk Hk' Hr Ha Hb Hd. induction k as [|k IH]; [done|].
  destruct IH as [IHr IHd]; [lia | lia |].
  simpl. apply call_step_agree; try done.
  - rewrite iter_step_todo. lia.
  - rewrite iter_step_todo. lia.
  - clear -Ha. induction k as [|k IHk]; [done|]. simpl.
    destruct (call_step_samples _ rng_indices (Nat.iter k step c)) as [-> _].
    destruct (call_step_samples _ rng_indices (Nat.iter k step c')) as [-> _].
    exact IHk.
  - clear -Hb. induction k as [|k IHk]; [done|]. simpl.
    destruct (call_step_samples _ rng_indices (Nat.iter k step c)) as [_ ->].
    destruct (call_step_samples _ rng_indices (Nat.iter k step c')) as [_ ->].
    exact IHk.
Qed.

(** X8: with the same samples and seed, the buffer of a run with [B]
    resamples is the first [B] entries of the buffer of any longer run:
    moving the slider up keeps the differences already drawn. *)
Theorem bootstrap_samples_prefix (a b : list float) (B k : nat) (seed : Z) :
  bootstrap_samples_mean_diff default_rng rng_indices a b B seed
  = take B (bootstrap_samples_mean_diff default_rng rng_indices a b (B + k) seed).
Proof.
  unfold bootstrap_samples_mean_diff.
  set (c := call_init default_rng a b B seed).
  set (c' := call_init default_rng a b (B + k) seed).
  destruct (iter_step_agree B c c') as [_ Hd]; try done; [simpl; lia|].
  rewrite Nat.add_comm, Nat.iter_add.
  destruct (iter_step_appends k (Nat.iter B step c')) as (l & -> & _).
  rewrite <- Hd.
  destruct (iter_step_appends B c) as (l0 & Hl0 & Hlen).
  rewrite iter_step_todo in Hlen. simpl in Hlen, Hl0.
  rewrite Hl0. rewrite take_app_length'; [done | lia].
Qed.

End Prefix.

Lemma within_finite (l h : Qc) (xs : list float) :
  Forall (within l h) xs -> Forall finite xs.
Proof.
  intros H. eapply Forall_impl; [exact H|].
  intros x (q & -> & _). now exists q.
Qed.

Lemma foldl_fadd_within (l h : Qc) (xs : list float) (acc : Qc) :
  Forall (within l h) xs ->
  exists S,
    foldl fadd (FNum acc) xs = FNum (acc + S)%Qc /\
    (Qc_of_Z (Z.of_nat (length xs)) * l <= S)%Qc /\
    (S <= Qc_of_Z (Z.of_nat (length xs)) * h)%Qc.
Proof.
  intros H. revert acc. induction H as [|x xs (q & -> & Hl & Hh) _ IH]; intros acc.
  - exists 0%Qc. simpl. split; [f_equal; ring|].
    change (Z.of_nat 0) with 0%Z. rewrite Z2Qc_inj_0, !Qcmult_0_l.
    split; apply Qcle_refl.
  - cbn [foldl fadd]. destruct (IH (acc + q)%Qc) as (S & HS & HSl & HSh).
    exists (q + S)%Qc. split; [rewrite HS; f_equal; ring|].
    cbn [length]. rewrite Nat2Z.inj_succ, <- Z.add_1_r, Z2Qc_inj_add, Z2Qc_inj_1.
    clear HS IH. qc_order. split; nra.
Qed.

Lemma np_mean_within (l h : Qc) (xs : list float) :
  xs <> [] -> Forall (within l h) xs -> within l h (np_mean xs).
Proof.
  intros Hne H. unfold np_mean, np_sum, f0, f_of_nat.
  destruct (foldl_fadd_within l h xs 0 H) as (S & -> & HSl & HSh).
  assert (Hn : (0 < Z.of_nat (length xs))%Z) by (destruct xs; [done | simpl; lia]).
  rewrite fdiv_of_Z_pos by exact Hn.
  pose proof (Qc_of_Z_pos _ Hn) as HN.
  eexists. split; [reflexivity|].
  rewrite Qcplus_0_l. split.
  - apply Qc_div_le_lower; [exact HN|]. now rewrite Qcmult_comm.
  - apply Qc_div_le_upper; [exact HN|]. now rewrite (Qcmult_comm h).
Qed.

Lemma resample_within (l h : Qc) (a r : list float) :
  a <> [] -> Forall (within l h) a -> is_resample_of a r ->
  r <> [] /\ Forall (within l h) r.
Proof.
  intros Hne Hw [Hlen Hin]. split.
  - intros ->. destruct a; [done | discriminate].
  - rewrite Forall_forall in Hw |- *. rewrite Forall_forall in Hin.
    intros x Hx. apply Hw, Hin, Hx.
Qed.

Lemma bootstrap_diff_within (la ha lb hb : Qc) (a b : list float) (d : float) :
  a <> [] -> b <> [] ->
  Forall (within la ha) a -> Forall (within lb hb) b ->
  is_bootstrap_diff a b d -> within (lb - ha) (hb - la) d.
Proof.
  intros Ha Hb Hwa Hwb (ra & rb & Hra & Hrb & ->).
  destruct (resample_within la ha a ra Ha Hwa Hra) as [Hra1 Hra2].
  destruct (resample_within lb hb b rb Hb Hwb Hrb) as [Hrb1 Hrb2].
  destruct (np_mean_within la ha ra Hra1 Hra2) as (ma & -> & Hma1 & Hma2).
  destruct (np_mean_within lb hb rb Hrb1 Hrb2) as (mb & -> & Hmb1 & Hmb2).
  eexists. split; [reflexivity|]. qc_order. split; lra.
Qed.

Lemma np_sort_nth_within (l h : Qc) (arr : list float) (i : nat) :
  Forall (within l h) arr -> (i < length arr)%nat ->
  within l h (nth i (np_sort arr) FNaN).
Proof.
  intros Hw Hi.
  assert (Hs : Forall (within l h) (np_sort arr)).
  { unfold np_sort. now rewrite (merge_sort_Permutation sort_le arr). }
  rewrite Forall_forall in Hs. apply Hs.
  destruct (nth_lookup_or_length (np_sort arr) i FNaN) as [Hl | Hl].
  - eapply list_elem_of_lookup_2. exact Hl.
  - rewrite np_sort_length in Hl. lia.
Qed.

Lemma np_percentile_within (l h : Qc) (arr : list float) (q : Qc) :
  arr <> [] -> Forall (within l h) arr ->
  (0 <= q)%Qc -> (q <= Qc_of_Z 100)%Qc ->
  within l h (np_percentile arr q).
Proof.
  intros Hne Hw Hq0 Hq1.
  pose proof (within_finite l h arr Hw) as Hfin.
  destruct (np_percentile_finite arr q Hfin Hne Hq0 Hq1)
    as (a & b & Ha & Hb & Hab & ->).
  assert (Hn : (1 <= Z.of_nat (length arr))%Z).
  { destruct arr; [done | simpl; lia]. }
  set (n := Z.of_nat (length arr)) in *.
  destruct (virtual_index_bounds n q Hn Hq0 Hq1) as [Hv0 Hv1].
  destruct (floor_bounds _ _ Hv0 Hv1) as [[Hp0 Hp1] [Hg0 Hg1]].
  set (p := Qfloor (virtual_index n q)) in *.
  destruct (np_sort_nth_within l h arr (Z.to_nat p) Hw) as (a' & Ha' & Hla & _);
    [subst n; lia|].
  destruct (np_sort_nth_within l h arr (Z.to_nat (Z.min (p + 1) (n - 1))) Hw)
    as (b' & Hb' & _ & Hhb); [subst n; lia|].
  rewrite Ha in Ha'. injection Ha' as <-.
  rewrite Hb in Hb'. injection Hb' as <-.
  eexists. split; [reflexivity|]. split.
  - eapply Qcle_trans; [exact Hla|]. now apply lerp_lower.
  - eapply Qcle_trans; [|exact Hhb]. now apply lerp_upper.
Qed.

Lemma ci_of_diffs_within (l h : Qc) (diffs : list float) :
  diffs <> [] -> Forall (within l h) diffs ->
  within l h (ci_of_diffs diffs).1 /\
  within l h (ci_of_diffs diffs).2.1 /\
  within l h (ci_of_diffs diffs).2.2.
Proof.
  intros Hne Hw. destruct percentile_levels as (H0 & H1 & H2).
  unfold ci_of_diffs. cbn [fst snd].
  split; [now apply np_mean_within|].
  split; apply np_percentile_within; try done;
    eapply Qcle_trans; eauto.
Qed.

Section Range.

Variable Generator : Type.
Variable default_rng : Z -> Generator.
Variable rng_indices : Generator -> nat -> nat -> list nat * Generator.

Hypothesis rng_indices_length :
  forall g n k, length (rng_indices g n k).1 = k.
Hypothesis rng_indices_bound :
  forall g n k, (0 < n)%nat -> Forall (fun i => (i < n)%nat) (rng_indices g n k).1.

Lemma bootstrap_buffer_within
    (la ha lb hb : Qc) (a b : list float) (B : nat) (seed : Z) :
  a <> [] -> b <> [] ->
  Forall (within la ha) a -> Forall (within lb hb) b ->
  (1 <= B)%nat ->
  bootstrap_samples_mean_diff default_rng rng_indices a b B seed <> [] /\
  Forall (within (lb - ha) (hb - la))
    (bootstrap_samples_mean_diff default_rng rng_indices a b B seed).
Proof.
  intros Ha Hb Hwa Hwb HB. unfold bootstrap_samples_mean_diff.
  destruct (iter_step_invariant Generator rng_indices
              rng_indices_length rng_indices_bound
              B B (call_init default_rng a b B seed))
    as [Hlen Hall]; [done | done |].
  rewrite iter_step_todo in Hlen. simpl in Hlen, Hall.
  set (diffs := c_diffs _) in *. split.
  - intros E. rewrite E in Hlen. simpl in Hlen. lia.
  - eapply Forall_impl; [exact Hall|].
    intros d Hd. now apply (bootstrap_diff_within la ha lb hb a b).
Qed.



End Range.

Section CupedMissingOutcome.

Import Binary64.
Local Open Scope float_scope.

Lemma add_nan_l (x : PrimFloat.float) : nan + x = nan.
Proof.
  apply Prim2SF_inj. rewrite FloatAxioms.add_spec.
  change (Prim2SF nan) with S754_nan. reflexivity.
Qed.

Lemma add_nan_r (x : PrimFloat.float) : x + nan = nan.
Proof.
  apply Prim2SF_inj. rewrite FloatAxioms.add_spec.
  change (Prim2SF nan) with S754_nan.
  destruct (Prim2SF x); reflexivity.
Qed.

Lemma sub_nan_r (x : PrimFloat.float) : x - nan = nan.
Proof.
  apply Prim2SF_inj. rewrite FloatAxioms.sub_spec.
  change (Prim2SF nan) with S754_nan.
  destruct (Prim2SF x); reflexivity.
Qed.

Lemma mul_nan_l (x : PrimFloat.float) : nan * x = nan.
Proof.
  apply Prim2SF_inj. rewrite FloatAxioms.mul_spec.
  change (Prim2SF nan) with S754_nan. reflexivity.
Qed.

Lemma div_nan_l (x : PrimFloat.float) : nan / x = nan.
Proof.
  apply Prim2SF_inj. rewrite FloatAxioms.div_spec.
  change (Prim2SF nan) with S754_nan. reflexivity.
Qed.

Lemma foldl_add_nan (l : list PrimFloat.float) : foldl PrimFloat.add nan l = nan.
Proof.
  induction l as [|x l IH]; [reflexivity|].
  cbn [foldl]. now rewrite add_nan_l.
Qed.

(** A sum with a nan in it is nan. *)
Lemma np_sum_nan (l : list PrimFloat.float) : nan ∈ l -> np_sum l = nan.
Proof.
  unfold np_sum. generalize 0. induction l as [|x l IH]; intros acc Hin.
  - now apply elem_of_nil in Hin.
  - cbn [foldl]. apply elem_of_cons in Hin as [<- | Hin].
    + rewrite add_nan_r. apply foldl_add_nan.
    + now apply IH.
Qed.

Lemma np_mean_nan (l : list PrimFloat.float) : nan ∈ l -> np_mean l = nan.
Proof. intros H. unfold np_mean. rewrite (np_sum_nan l H). apply div_nan_l. Qed.

Lemma np_cov_nan (y x : list PrimFloat.float) :
  nan ∈ y -> length x = length y -> np_cov_ddof1 y x = nan.
Proof.
  intros Hin Hlen. unfold np_cov_ddof1. rewrite (np_mean_nan y Hin).
  rewrite np_sum_nan; [apply mul_nan_l|].
  destruct y as [|v y]; [now apply elem_of_nil in Hin|].
  destruct x as [|w x]; [discriminate|].
  cbn [map zip_with]. rewrite sub_nan_r, mul_nan_l. apply elem_of_cons. now left.
Qed.


End CupedMissingOutcome.

Lemma py_float_div_positive (n d : float) :
  fgtb d f0 = true -> py_float_div n d = Ok (n / d).
Proof.
  intros H. unfold py_float_div.
  destruct (is_zero d) eqn:Ez; [|reflexivity].
  exfalso. unfold fgtb, fltb, is_zero, f0 in *.
  destruct d as [q | s |]; try discriminate.
  destruct (Qc_sgn q) eqn:Es; try discriminate.
  apply Qc_sgn_Eq in Es. subst q.
  apply bool_decide_eq_true in H. now apply (Qclt_not_eq 0 0).
Qed.

Section FallbackErrors.

Variable sqrtQc : Qc -> Qc.
Variable norm_ppf_975 : float.
Variable t_ppf_975 : float -> float.

Lemma analytic_cis_degenerate_raises (a b : variant_row) :
  users a = 0%Z \/ users a = 1%Z \/ users b = 0%Z \/ users b = 1%Z ->
  analytic_cis sqrtQc norm_ppf_975 t_ppf_975 a b = Raised ZeroDivisionError.
Proof.
  intros Hn. unfold analytic_cis.
  destruct (Z.eq_dec (users a) 0%Z) as [Ha0 | Ha0]; [now rewrite Ha0|].
  rewrite (py_int_truediv_nonzero _ _ Ha0). cbn [obind].
  destruct (Z.eq_dec (users b) 0%Z) as [Hb0 | Hb0]; [now rewrite Hb0|].
  rewrite (py_int_truediv_nonzero _ _ Hb0). cbn [obind].
  rewrite !py_float_div_int_nonzero by done. cbn [obind].
  destruct (Z.eq_dec (users a) 1%Z) as [Ha1 | Ha1]; [now rewrite Ha1|].
  assert (Hda : (users a * users a * (users a - 1) <> 0)%Z) by nia.
  rewrite (py_float_div_int_nonzero _ _ Hda). cbn [obind].
  assert (Hb1 : users b = 1%Z) by tauto.
  now rewrite Hb1.
Qed.

Lemma analytic_cis_regular_ok (a b : variant_row) :
  users a <> 0%Z -> users a <> 1%Z -> users b <> 0%Z -> users b <> 1%Z ->
  exists rows, analytic_cis sqrtQc norm_ppf_975 t_ppf_975 a b = Ok rows.
Proof.
  intros Ha0 Ha1 Hb0 Hb1.
  assert (users a * users a * (users a - 1) <> 0)%Z by nia.
  assert (users b * users b * (users b - 1) <> 0)%Z by nia.
  unfold analytic_cis.
  rewrite !py_int_truediv_nonzero by done. cbn [obind].
  rewrite !py_float_div_int_nonzero by done. cbn [obind].
  destruct (fgtb (_ + _) f0) eqn:E.
  - rewrite py_float_div_positive by exact E. cbn [obind].
    eexists. reflexivity.
  - cbn [obind]. eexists. reflexivity.
Qed.


End FallbackErrors.

Lemma margin_around (d c s : Qc) :
  (0 <= c)%Qc -> (0 <= s)%Qc ->
  fleb (FNum d - FNum c * FNum s) (FNum d) = true /\
  fleb (FNum d) (FNum d + FNum c * FNum s) = true.
Proof.
  intros Hc Hs. unfold fsub. cbn [fmul fneg fadd fleb].
  rewrite !bool_decide_eq_true.
  pose proof (Qc_mul_nonneg c s Hc Hs) as Hm.
  qc_order. split; lra.
Qed.

Section FallbackOrder.

Variable sqrtQc : Qc -> Qc.
Variable norm_ppf_975 : float.
Variable t_ppf_975 : float -> float.

Hypothesis sqrtQc_nonneg : forall q, (0 <= sqrtQc q)%Qc.

Lemma np_sqrt_nonneg (r : Qc) :
  (0 <= r)%Qc -> exists s, np_sqrt sqrtQc (FNum r) = FNum s /\ (0 <= s)%Qc.
Proof.
  intros Hr. unfold np_sqrt. destruct (Qc_sgn r) eqn:E.
  - exists 0%Qc. split; [reflexivity | apply Qcle_refl].
  - exfalso. unfold Qc_sgn in E. apply Qclt_alt in E.
    now apply (Qcle_not_lt _ _ Hr).
  - exists (sqrtQc r). split; [reflexivity | apply sqrtQc_nonneg].
Qed.


End FallbackOrder.





Lemma conversion_test_swap_witness :
  exists c c',
    conversion_test sqrtQc_upper cdf_sigmoid row_A row_B = Ok c /\
    conversion_test sqrtQc_upper cdf_sigmoid row_B row_A = Ok c' /\
    A_rate c' = B_rate c /\
    B_rate c' = A_rate c /\
    B_minus_A c' = fneg (B_minus_A c) /\
    conv_z c' = fneg (conv_z c) /\
    conv_p c' = conv_p c.
Proof.
  destruct (conversion_test_nonzero_ok sqrtQc_upper cdf_sigmoid row_A row_B)
    as [c Hc]; [discriminate | discriminate |].
  destruct (conversion_test_swap sqrtQc_upper cdf_sigmoid row_A row_B c Hc)
    as (c' & H).
  exists c, c'. split; [exact Hc | exact H].
Defined.

Lemma sample01_within :
  Forall (within 0 1) sample_a01 /\ Forall (within 0 1) sample_b01.
Proof.
  split; repeat constructor; eexists; (split; [reflexivity|]);
    unfold Qcle, Qle; simpl; lia.
Qed.



Lemma sqrtQc_upper_nonneg (q : Qc) : (0 <= sqrtQc_upper q)%Qc.
Proof.
  unfold sqrtQc_upper.
  pose proof (Z.sqrt_nonneg (Qnum q * Z.pos (Qden q))) as Hr.
  destruct (_ =? _)%Z; unfold Qcle; cbn [this Q2Qc];
    rewrite !Qred_correct; unfold Qle; simpl; lia.
Qed.


Section CupedWitness.
Import Binary64.
Local Open Scope float_scope.

End CupedWitness.
